(** * Intel-Website-Localization: direction resolver and timeline scroll adapter

  A shallow embedding of the two page scripts of the repository:

  - [src/unnamed/part_000], lines 1-57: the direction resolver
    ([hasRTLCharacters], [setPageDirection]);
  - [src/script.js] (repeated as lines 59-157 of [part_000]): the timeline
    scroll adapter ([canScrollHorizontally], [normalizeDeltaY], [onWheel],
    the container's keydown listener, [isTouchOrSmall], [toggleCard], the
    cards' keydown listener and the document's click listener).

  JavaScript values are modelled as the scripts use them:

  - a Number that takes part in arithmetic with a fractional constant
    ([* 0.1], [* 1.2], [* 0.8]) or that comes from a wheel event is an IEEE-754
    binary64 value, [spec_float] with the operations [SFmul], [SFltb], [SFabs]
    and [SFopp] of the standard library at precision 53;
  - a DOM [long] ([scrollWidth], [clientWidth]), an [unsigned long]
    ([deltaMode]) and an array or string length is an integer in [Z] or
    [nat]; sums and comparisons of such values are exact in binary64 below
    2^53, and they are turned into binary64 by [num_of_Z] where the script
    multiplies them by a fractional constant;
  - a string is its list of UTF-16 code units;
  - a listener of the container returns the list of calls it made on the
    event and on the container ([effect]); the cards' [classList]s are
    passed as state;
  - the resolver runs in a small monad [DOM] that threads the document and
    the list of DOM operations performed, and stops at a thrown
    [TypeError] ([completion]);
  - the mutation observer and its timer run on a [host] that keeps the
    clock, the pending timers and [observer.checkTimeout]; the host decides
    when mutations arrive and when a due timer runs. *)

From Stdlib Require Import String Ascii.
From Stdlib Require Import ZArith List Bool Lia PeanoNat.
From Stdlib Require Import Floats.SpecFloat.
Import ListNotations.

Local Open Scope Z_scope.

(** ** JavaScript numbers: IEEE-754 binary64 *)

Module Number.

Definition prec : Z := 53.
Definition emax : Z := 1024.

Definition number : Type := spec_float.

(** An integer as a Number (exact when [|z| < 2^53]). *)
Definition num_of_Z (z : Z) : number := binary_normalize prec emax z 0 false.

(** [a * b] *)
Definition num_mul (a b : number) : number := SFmul prec emax a b.

(** [a < b]; a comparison with NaN is false. *)
Definition num_lt (a b : number) : bool := SFltb a b.

(** [a > b] is evaluated as [b < a]. *)
Definition num_gt (a b : number) : bool := num_lt b a.

(** [Math.abs(a)] *)
Definition num_abs (a : number) : number := SFabs a.

(** [-a] *)
Definition num_neg (a : number) : number := SFopp a.

(** A decimal literal [n/d] denotes the binary64 value nearest to it, which
    is what the correctly rounded quotient of the two integers computes. *)
Definition literal (n d : Z) : number :=
  SFdiv prec emax (num_of_Z n) (num_of_Z d).

(** The literals [0.1], [1.2] and [0.8] of the scripts. *)
Definition lit_0_1 : number := Eval vm_compute in literal 1 10.
Definition lit_1_2 : number := Eval vm_compute in literal 12 10.
Definition lit_0_8 : number := Eval vm_compute in literal 8 10.

(** Numbers that denote a value: canonical mantissa, exponent in range. *)
Definition valid (a : number) : bool := valid_binary prec emax a.

End Number.

Import Number.

(** ** JavaScript strings: UTF-16 code units *)

Module JSString.

Definition jsstring : Type := list Z.

(** A literal of the source with ASCII characters only. *)
Definition js (s : string) : jsstring :=
  map (fun c => Z.of_N (N_of_ascii c)) (list_ascii_of_string s).

Fixpoint eqb (s t : jsstring) : bool :=
  match s, t with
  | [], [] => true
  | c :: s', d :: t' => (c =? d) && eqb s' t'
  | _, _ => false
  end.

(** [s.split(sep)] for a separator of one code unit: the pieces between
    the separators, never an empty array. *)
Fixpoint split (sep : Z) (s : jsstring) : list jsstring :=
  match s with
  | [] => [[]]
  | c :: s' =>
      if c =? sep then [] :: split sep s'
      else match split sep s' with
           | [] => [[c]]
           | p :: ps => (c :: p) :: ps
           end
  end.

(** [arr.includes(x)] on an array of strings. *)
Definition includes (arr : list jsstring) (x : jsstring) : bool :=
  existsb (eqb x) arr.

(** [String.prototype.toLowerCase] restricted to the letters A-Z; every
    other code unit is kept. The resolver is stated over the host's
    function, this one instantiates it on ASCII language tags. *)
Definition asciiLower (s : jsstring) : jsstring :=
  map (fun c => if (65 <=? c) && (c <=? 90) then c + 32 else c) s.

End JSString.

Import JSString.

(** ** Completions *)

Inductive js_error : Type := TypeError.

Inductive completion (A : Type) : Type :=
| Normal (a : A)
| Throw (e : js_error).

Arguments Normal {A} a.
Arguments Throw {A} e.

(** ** The direction resolver ([src/unnamed/part_000], lines 1-57) *)

Module Direction.

(** The element found by [document.getElementById('html-element')], with
    the two attributes the script reads and writes. *)
Record element : Type := mkElement {
  attr_lang : option jsstring;
  attr_dir : option jsstring
}.

(** The part of the document the resolver touches. [htmlElement] is [None]
    when [getElementById] returned null. *)
Record document : Type := mkDocument {
  htmlElement : option element;
  body_innerText : jsstring
}.

(** What one pass did to the DOM, in order. *)
Inductive dom_op : Type :=
| GetLang
| GetInnerText
| SetDir (v : jsstring).

(** Script code that works on the DOM: from the document and the
    operations performed so far, a value with the document and the
    operations after it, or an error thrown. *)
Definition DOM (A : Type) : Type :=
  document * list dom_op -> completion (A * (document * list dom_op)).

Definition ret {A : Type} (a : A) : DOM A := fun s => Normal (a, s).

Definition bind {A B : Type} (m : DOM A) (k : A -> DOM B) : DOM B :=
  fun s =>
    match m s with
    | Normal (a, s') => k a s'
    | Throw e => Throw e
    end.

Notation "x <- m ;; k" := (bind m (fun x => k))
  (at level 61, m at next level, right associativity).

(** [htmlElement.getAttribute('lang')]: a [TypeError] when [htmlElement]
    is null. *)
Definition getAttribute_lang : DOM (option jsstring) :=
  fun s =>
    match htmlElement (fst s) with
    | None => Throw TypeError
    | Some el => Normal (attr_lang el, (fst s, snd s ++ [GetLang]))
    end.

(** [htmlElement.setAttribute('dir', v)] *)
Definition setAttribute_dir (v : jsstring) : DOM unit :=
  fun s =>
    match htmlElement (fst s) with
    | None => Throw TypeError
    | Some el =>
        Normal (tt, (mkDocument (Some (mkElement (attr_lang el) (Some v)))
                                (body_innerText (fst s)),
                     snd s ++ [SetDir v]))
    end.

(** [document.body.innerText] *)
Definition innerText : DOM jsstring :=
  fun s => Normal (body_innerText (fst s), (fst s, snd s ++ [GetInnerText])).

(** [const rtlLanguages = ['ar', 'he', 'fa', 'ur', 'yi', 'ji', 'iw', 'ku'];] *)
Definition rtlLanguages : list jsstring :=
  [js "ar"%string; js "he"%string; js "fa"%string; js "ur"%string; js "yi"%string; js "ji"%string; js "iw"%string; js "ku"%string].

(** The code units matched by the character class of
    [/[\u0590-\u08FF]/g]. *)
Definition rtlCharPattern (c : Z) : bool := (0x0590 <=? c) && (c <=? 0x08FF).

(** [text.match(re)] for a global regular expression made of one character
    class: every matching code unit, or null when there is none. *)
Definition match_global (cls : Z -> bool) (text : jsstring) : option (list jsstring) :=
  match filter cls text with
  | [] => None
  | l => Some (map (fun c => [c]) l)
  end.

(** [const matches = text.match(rtlCharPattern) || [];] *)
Definition matches (text : jsstring) : list jsstring :=
  match match_global rtlCharPattern text with
  | Some l => l
  | None => []
  end.

(** [return matches.length > text.length * 0.1;] *)
Definition hasRTLCharacters (text : jsstring) : bool :=
  num_gt (num_of_Z (Z.of_nat (length (matches text))))
         (num_mul (num_of_Z (Z.of_nat (length text))) lit_0_1).

(** The number of code units of [text] in the range U+0590 to U+08FF, the
    count the specification compares with one tenth of the length. *)
Definition rtlCount (text : jsstring) : nat :=
  length (filter rtlCharPattern text).

(** [x || 'en'] on the result of [getAttribute]: null and the empty string
    are falsy. *)
Definition or_en (v : option jsstring) : jsstring :=
  match v with
  | Some (c :: s) => c :: s
  | _ => js "en"%string
  end.

(** [arr[0]] of a split result. *)
Definition first (arr : list jsstring) : jsstring := hd [] arr.

Section Resolver.

(** The host's [String.prototype.toLowerCase]. *)
Variable toLowerCase : jsstring -> jsstring.

(** [currentLang.split('-')[0].toLowerCase()] *)
Definition langCode (currentLang : jsstring) : jsstring :=
  toLowerCase (first (split 45 currentLang)).

(** [setPageDirection()]. In [document.body.innerText || ''] the
    alternative is taken for the empty string only, and gives it back. *)
Definition setPageDirection : DOM unit :=
  lang <- getAttribute_lang ;;
  let currentLang := or_en lang in
  if includes rtlLanguages (langCode currentLang) then
    setAttribute_dir (js "rtl"%string)
  else
    pageText <- innerText ;;
    if hasRTLCharacters pageText then setAttribute_dir (js "rtl"%string)
    else setAttribute_dir (js "ltr"%string).

(** One pass on the document [d]. *)
Definition pass (d : document) : completion (unit * (document * list dom_op)) :=
  setPageDirection (d, []).

(** The [DOMContentLoaded] listener up to its first call of
    [setPageDirection] (line 43); the observer is installed only when
    that call returns. *)
Definition resolver_onLoad (d : document)
  : completion (unit * (document * list dom_op)) :=
  pass d.

(** The [dir] attribute after a pass, when the pass returned. *)
Definition dir_after (d : document) : option jsstring :=
  match pass d with
  | Normal (_, (d', _)) =>
      match htmlElement d' with
      | Some el => attr_dir el
      | None => None
      end
  | Throw _ => None
  end.

(** Whether a pass read [document.body.innerText]. *)
Definition reads_body (d : document) : bool :=
  match pass d with
  | Normal (_, (_, ops)) =>
      existsb (fun o => match o with GetInnerText => true | _ => false end) ops
  | Throw _ => false
  end.

End Resolver.

End Direction.

(** ** The timeline scroll adapter ([src/script.js]) *)

Module Timeline.

(** The element found by [document.querySelector('.timeline')]. *)
Record timeline_el : Type := mkTimeline {
  scrollWidth : Z;
  clientWidth : Z
}.

Record wheel_event : Type := mkWheel {
  deltaX : number;
  deltaY : number;
  deltaMode : Z
}.

Inductive behavior : Type := Auto | Smooth.

(** The calls a listener of the container makes: [e.preventDefault()] and
    [timeline.scrollBy({ left, behavior })]. *)
Inductive effect : Type :=
| PreventDefault
| ScrollBy (left : number) (b : behavior).

(** [timeline.scrollWidth > timeline.clientWidth + 1] *)
Definition canScrollHorizontally (t : timeline_el) : bool :=
  scrollWidth t >? clientWidth t + 1.

(** [normalizeDeltaY]: lines to px, pages to px. *)
Definition normalizeDeltaY (e : wheel_event) : number :=
  let delta := deltaY e in
  if deltaMode e =? 1 then num_mul delta (num_of_Z 16)
  else if deltaMode e =? 2 then num_mul delta (num_of_Z 800)
  else delta.

(** The factor [f] of the specification's normalisation rule: 16 in line
    mode, 800 in page mode, 1 otherwise. *)
Definition spec_factor (mode : Z) : number :=
  if mode =? 1 then num_of_Z 16
  else if mode =? 2 then num_of_Z 800
  else num_of_Z 1.

(** [const speed = 1.2;] *)
Definition speed : number := lit_1_2.

(** The wheel listener. *)
Definition onWheel (t : timeline_el) (e : wheel_event) : list effect :=
  if negb (canScrollHorizontally t) then []
  else if num_gt (num_abs (deltaY e)) (num_abs (deltaX e)) then
    let delta := normalizeDeltaY e in
    [PreventDefault; ScrollBy (num_mul delta speed) Auto]
  else [].

(** The keydown listener of the container. *)
Definition onKeydown (t : timeline_el) (key : jsstring) : list effect :=
  let small := num_of_Z 260 in
  let big := num_mul (num_of_Z (clientWidth t)) lit_0_8 in
  if eqb key (js "ArrowRight"%string) then
    [PreventDefault; ScrollBy small Smooth]
  else if eqb key (js "ArrowLeft"%string) then
    [PreventDefault; ScrollBy (num_neg small) Smooth]
  else if eqb key (js "PageDown"%string) then
    [PreventDefault; ScrollBy big Smooth]
  else if eqb key (js "PageUp"%string) then
    [PreventDefault; ScrollBy (num_neg big) Smooth]
  else [].

(** *** Milestone cards *)

(** A [DOMTokenList]: the class names of an element, without repeats. *)
Definition classList : Type := list jsstring.

Definition contains (cl : classList) (tok : jsstring) : bool :=
  existsb (eqb tok) cl.

Definition remove (cl : classList) (tok : jsstring) : classList :=
  filter (fun t => negb (eqb tok t)) cl.

Definition add (cl : classList) (tok : jsstring) : classList :=
  if contains cl tok then cl else cl ++ [tok].

(** [milestoneCards]: the static node list of line 67, each card with its
    class list; a card is named by its position in the list. *)
Definition cards : Type := list classList.

Definition open : jsstring := js "open"%string.

(** [milestoneCards.forEach(c => c.classList.remove('open'))] *)
Definition closeAll (cs : cards) : cards :=
  map (fun c => remove c open) cs.

(** The class list of card [i] replaced by [f] of it. *)
Fixpoint update (i : nat) (f : classList -> classList) (cs : cards) : cards :=
  match cs, i with
  | [], _ => []
  | c :: cs', O => f c :: cs'
  | c :: cs', S i' => c :: update i' f cs'
  end.

(** What the scripts read of [window]: whether it has an [ontouchstart]
    property, and the viewport width the media query is evaluated on. *)
Record window : Type := mkWindow {
  ontouchstart : bool;
  viewportWidth : Z
}.

(** [window.matchMedia('(max-width:480px)').matches] *)
Definition matchMedia_max_width_480 (w : window) : bool :=
  viewportWidth w <=? 480.

(** [('ontouchstart' in window) || window.matchMedia(...).matches] *)
Definition isTouchOrSmall (w : window) : bool :=
  ontouchstart w || matchMedia_max_width_480 w.

(** [toggleCard(e)]: [currentTarget] is the card the listener is attached
    to, [in_link] tells whether
    [e.target && e.target.closest && e.target.closest('a, button')] is
    truthy. *)
Definition toggleCard (w : window) (currentTarget : nat) (in_link : bool)
           (cs : cards) : cards :=
  if negb (isTouchOrSmall w) then cs
  else if in_link then cs
  else
    let wasOpen := contains (nth currentTarget cs []) open in
    let cs' := closeAll cs in
    if negb wasOpen then update currentTarget (fun c => add c open) cs'
    else cs'.

(** The keydown listener of card [card]: the cards after it, and whether it
    called [e.preventDefault()]. *)
Definition cardKeydown (w : window) (card : nat) (key : jsstring)
           (in_link : bool) (cs : cards) : cards * bool :=
  if (eqb key (js "Enter"%string) || eqb key (js " "%string)) && isTouchOrSmall w
  then (toggleCard w card in_link cs, true)
  else (cs, false).

(** The click listener of the document: [in_card] tells whether
    [e.target.closest('.milestone-card')] is non-null. *)
Definition documentClick (w : window) (in_card : bool) (cs : cards) : cards :=
  if negb (isTouchOrSmall w) then cs
  else if negb in_card then closeAll cs
  else cs.

(** *** Dispatch *)

(** The interactions with the cards. A click on a card runs the card's
    click listener and then, bubbling, the document's with a target inside
    a card. *)
Inductive interaction : Type :=
| ClickCard (card : nat) (in_link : bool)
| KeydownCard (card : nat) (key : jsstring) (in_link : bool)
| ClickOutside.

Definition dispatch (w : window) (ev : interaction) (cs : cards) : cards :=
  match ev with
  | ClickCard i l => documentClick w true (toggleCard w i l cs)
  | KeydownCard i k l => fst (cardKeydown w i k l cs)
  | ClickOutside => documentClick w false cs
  end.

(** The interactions that toggle card [b]: a click on it outside any link
    or button, or Enter or Space while it has the focus. *)
Definition toggles (b : nat) (ev : interaction) : Prop :=
  ev = ClickCard b false
  \/ ev = KeydownCard b (js "Enter"%string) false
  \/ ev = KeydownCard b (js " "%string) false.

(** A session: each interaction with the window as it is when it arrives. *)
Fixpoint run (tr : list (window * interaction)) (cs : cards) : cards :=
  match tr with
  | [] => cs
  | (w, ev) :: tr' => run tr' (dispatch w ev cs)
  end.

Definition isOpen (c : classList) : bool := contains c open.

(** The number of cards that carry the class [open]. *)
Definition openCount (cs : cards) : nat := length (filter isOpen cs).

Definition allClosed (cs : cards) : Prop := Forall (fun c => isOpen c = false) cs.

(** *** Set-up *)

Inductive listener : Type :=
| LWheel
| LKeydown
| LCardClick (card : nat)
| LCardKeydown (card : nat)
| LDocumentClick.

(** The [DOMContentLoaded] listener of the adapter: the listeners it
    registers. [timeline] is [None] when [querySelector] returned null,
    [n] is the number of milestone cards. *)
Definition adapter_onLoad (timeline : option timeline_el) (n : nat)
  : completion (list listener) :=
  match timeline with
  | None => Normal []
  | Some _ =>
      Normal ([LWheel; LKeydown]
                ++ flat_map (fun i => [LCardClick i; LCardKeydown i]) (seq 0 n)
                ++ [LDocumentClick])
  end.

End Timeline.

(** ** Signs of numbers *)

Module Sign.

(** The sign bit of a number ([true] for negative), [None] for NaN. *)
Definition signbit (a : number) : option bool :=
  match a with
  | S754_zero s => Some s
  | S754_infinity s => Some s
  | S754_nan => None
  | S754_finite s _ _ => Some s
  end.

(** Round to nearest, ties to even, on the integers: [m1] is the integer
    that [P / 2 ^ k] is rounded to. *)
Definition nearest_even (P : Z) (k : positive) (m1 : Z) : Prop :=
  (2 * (P mod 2 ^ Zpos k) < 2 ^ Zpos k -> m1 = P / 2 ^ Zpos k)
  /\ (2 ^ Zpos k < 2 * (P mod 2 ^ Zpos k) -> m1 = P / 2 ^ Zpos k + 1)
  /\ (2 * (P mod 2 ^ Zpos k) = 2 ^ Zpos k ->
      m1 = if Z.even (P / 2 ^ Zpos k) then P / 2 ^ Zpos k else P / 2 ^ Zpos k + 1).

End Sign.

Import Sign.

(** ** Symmetry of the wheel listener *)

Module Mirror.

Import Timeline.

(** The call with the scroll offset negated. *)
Definition mirror (c : effect) : effect :=
  match c with
  | PreventDefault => PreventDefault
  | ScrollBy l b => ScrollBy (num_neg l) b
  end.

(** The wheel event with [deltaY] negated, and with [deltaX] negated. *)
Definition flipY (e : wheel_event) : wheel_event :=
  mkWheel (deltaX e) (num_neg (deltaY e)) (deltaMode e).

Definition flipX (e : wheel_event) : wheel_event :=
  mkWheel (num_neg (deltaX e)) (deltaY e) (deltaMode e).

End Mirror.

Import Mirror.

(** ** The mutation observer and its debounce timer
    ([src/unnamed/part_000], lines 45-56) *)

Module Debounce.

Import Direction.

(** The page with the host's clock (in ms) and timers: [setTimeout] hands
    out increasing identifiers and keeps, for each pending timer, the time
    it is due; [checkTimeout] is the property [observer.checkTimeout]
    ([None] while it is undefined); [ran] lists the times at which the
    timer ran [setPageDirection], latest first. *)
Record host : Type := mkHost {
  page : document;
  clock : Z;
  next_id : Z;
  pending : list (Z * Z);
  checkTimeout : option Z;
  ran : list Z
}.

(** [setTimeout(f, delay)]: the identifier returned and the host after. *)
Definition setTimeout (delay : Z) (h : host) : Z * host :=
  (next_id h,
   mkHost (page h) (clock h) (next_id h + 1)
          (pending h ++ [(next_id h, clock h + delay)])
          (checkTimeout h) (ran h)).

(** [clearTimeout(handle)]: nothing happens for [undefined] and for an
    identifier that is not pending. *)
Definition clearTimeout (handle : option Z) (h : host) : host :=
  match handle with
  | None => h
  | Some id =>
      mkHost (page h) (clock h) (next_id h)
             (filter (fun p => negb (fst p =? id)) (pending h))
             (checkTimeout h) (ran h)
  end.

(** The observer's callback:
    [clearTimeout(observer.checkTimeout);
     observer.checkTimeout = setTimeout(setPageDirection, 100);] *)
Definition observerCallback (h : host) : host :=
  let h1 := clearTimeout (checkTimeout h) h in
  let (id, h2) := setTimeout 100 h1 in
  mkHost (page h2) (clock h2) (next_id h2) (pending h2) (Some id) (ran h2).

(** What happens on the page: the body text changes at time [t] and the
    observer's callback is called, or the host runs a timer that is due at
    time [t]. *)
Inductive event : Type :=
| Mutate (t : Z) (text : jsstring)
| Fire (t : Z).

(** The time of the last mutation of a sequence of events. *)
Definition last_mutation (evs : list event) : option Z :=
  fold_left (fun acc ev => match ev with Mutate t _ => Some t | Fire _ => acc end)
            evs None.

(** The number of mutations of a sequence of events. *)
Definition mutations (evs : list event) : nat :=
  length (filter (fun ev => match ev with Mutate _ _ => true | Fire _ => false end) evs).

(** A burst of mutations in the order of their times, none before [t0]. *)
Fixpoint chrono (t0 : Z) (ms : list (Z * jsstring)) : Prop :=
  match ms with
  | [] => True
  | (t, _) :: ms' => t0 <= t /\ chrono t ms'
  end.

(** At most one timer is pending, and it is the one [checkTimeout] names. *)
Definition one_timer (h : host) : Prop :=
  pending h = []
  \/ exists id due, pending h = [(id, due)] /\ checkTimeout h = Some id.

(** The [dir] attribute of the page. *)
Definition page_dir (h : host) : option jsstring :=
  match htmlElement (page h) with
  | Some el => attr_dir el
  | None => None
  end.

(** A burst as events. *)
Definition burst (ms : list (Z * jsstring)) : list event :=
  map (fun m => Mutate (fst m) (snd m)) ms.

Section Observer.

Variable toLowerCase : jsstring -> jsstring.

(** The timer's callback, [setPageDirection]: an error it throws is
    reported by the host and leaves the page as it is. *)
Definition timerCallback (h : host) : host :=
  mkHost (match pass toLowerCase (page h) with
          | Normal (_, (d', _)) => d'
          | Throw _ => page h
          end)
         (clock h) (next_id h) (pending h) (checkTimeout h) (clock h :: ran h).

(** One event: time does not go back, and a timer runs only when it is
    pending and due. *)
Definition step (ev : event) (h : host) : option host :=
  match ev with
  | Mutate t text =>
      if clock h <=? t then
        Some (observerCallback
                (mkHost (mkDocument (htmlElement (page h)) text) t (next_id h)
                        (pending h) (checkTimeout h) (ran h)))
      else None
  | Fire t =>
      if clock h <=? t then
        match find (fun p => snd p <=? t) (pending h) with
        | Some (id, _) =>
            Some (timerCallback
                    (mkHost (page h) t (next_id h)
                            (filter (fun p => negb (fst p =? id)) (pending h))
                            (checkTimeout h) (ran h)))
        | None => None
        end
      else None
  end.

Fixpoint run (evs : list event) (h : host) : option host :=
  match evs with
  | [] => Some h
  | ev :: evs' =>
      match step ev h with
      | Some h' => run evs' h'
      | None => None
      end
  end.

(** The [DOMContentLoaded] listener of the resolver: the first pass, then
    the observer is created and observes the body. *)
Definition install (d : document) : completion host :=
  match pass toLowerCase d with
  | Normal (_, (d', _)) => Normal (mkHost d' 0 1 [] None [])
  | Throw e => Throw e
  end.

End Observer.

End Debounce.

(** * Properties *)

(** ** Binary64 arithmetic

  Facts about the standard library's executable specification of IEEE-754
  arithmetic, at the precision of JavaScript numbers: how a mantissa is
  shifted and rounded, that small integers are represented exactly, that
  multiplying by one changes nothing, and that the comparison
  [count > length * 0.1] decides [length < 10 * count]. *)

Module Binary64.

Lemma digits2_pos_size (p : positive) : digits2_pos p = Pos.size p.
Proof. induction p; simpl; congruence. Qed.

Lemma digits2_pos_bounds (p : positive) :
  2 ^ (Zpos (digits2_pos p) - 1) <= Zpos p < 2 ^ Zpos (digits2_pos p).
Proof.
  induction p as [p IH | p IH | ]; simpl digits2_pos.
  - rewrite Pos2Z.inj_succ, (Pos2Z.inj_xI p).
    replace (Z.succ (Zpos (digits2_pos p)) - 1) with (Z.succ (Zpos (digits2_pos p) - 1)) by lia.
    rewrite !Z.pow_succ_r by lia. lia.
  - rewrite Pos2Z.inj_succ, (Pos2Z.inj_xO p).
    replace (Z.succ (Zpos (digits2_pos p)) - 1) with (Z.succ (Zpos (digits2_pos p) - 1)) by lia.
    rewrite !Z.pow_succ_r by lia. lia.
  - simpl. lia.
Qed.

Lemma digits2_pos_unique (p : positive) (d : Z) :
  2 ^ (d - 1) <= Zpos p < 2 ^ d -> Zpos (digits2_pos p) = d.
Proof.
  intros [Hl Hu]. pose proof (digits2_pos_bounds p) as [Bl Bu].
  set (c := Zpos (digits2_pos p)) in *.
  assert (0 < d).
  { destruct (Z.ltb_spec 0 d); [assumption|].
    rewrite (Z.pow_neg_r 2 d) in Hu by (destruct (Z.eq_dec d 0); [subst; simpl in Hu|]; lia) . lia. }
  destruct (Z.lt_total c d) as [Hlt | [Heq | Hgt]]; [ | assumption | ].
  - assert (2 ^ c <= 2 ^ (d - 1)) by (apply Z.pow_le_mono_r; lia). lia.
  - assert (2 ^ d <= 2 ^ (c - 1)) by (apply Z.pow_le_mono_r; lia). lia.
Qed.

Lemma iter_pos_iter {A : Type} (f : A -> A) (p : positive) (x : A) :
  iter_pos f p x = Pos.iter f x p.
Proof.
  revert x. induction p as [p IH | p IH | ]; intros x; simpl.
  - rewrite !IH, !Pos.iter_swap. reflexivity.
  - rewrite !IH. reflexivity.
  - reflexivity.
Qed.

Lemma shr_1_nonneg (m : Z) (r s : bool) :
  0 <= m ->
  shr_1 (Build_shr_record m r s) = Build_shr_record (m / 2) (Z.odd m) (r || s).
Proof.
  intros Hm. destruct m as [ | p | p ]; [reflexivity | | lia].
  destruct p as [p | p | ]; cbn [shr_1].
  - f_equal. rewrite (Pos2Z.inj_xI p). apply Z.div_unique with 1; lia.
  - f_equal. rewrite (Pos2Z.inj_xO p). apply Z.div_unique with 0; lia.
  - reflexivity.
Qed.

Lemma shr_iter (m : Z) (r s : bool) (k : positive) :
  0 <= m ->
  let mrs := iter_pos shr_1 k (Build_shr_record m r s) in
  shr_m mrs = m / 2 ^ Zpos k /\ shr_r mrs = Z.testbit m (Zpos k - 1).
Proof.
  intros Hm. cbv zeta. rewrite iter_pos_iter.
  apply (Pos.iter_ind _ shr_1 (Build_shr_record m r s)
           (fun k mrs => shr_m mrs = m / 2 ^ Zpos k /\ shr_r mrs = Z.testbit m (Zpos k - 1))).
  - rewrite shr_1_nonneg by assumption. simpl shr_m. simpl shr_r.
    split; [reflexivity | symmetry; apply Z.bit0_odd].
  - intros p [m' r' s'] [Hm' _]. cbn [shr_m] in Hm'. subst m'.
    rewrite shr_1_nonneg by (apply Z.div_pos; [assumption | apply Z.pow_pos_nonneg; lia]).
    simpl shr_m. simpl shr_r. rewrite Pos2Z.inj_succ. split.
    + rewrite Z.pow_succ_r by lia. rewrite Z.div_div by (try apply Z.pow_pos_nonneg; lia).
      f_equal. lia.
    + replace (Z.succ (Zpos p) - 1) with (Zpos p) by lia.
      rewrite Z.testbit_odd, Z.shiftr_div_pow2 by lia. reflexivity.
Qed.

Lemma testbit_half (a : Z) (k : positive) :
  Z.testbit a (Zpos k - 1) = true -> 2 ^ (Zpos k - 1) <= a mod 2 ^ Zpos k.
Proof.
  intros Hb. apply Z.testbit_true in Hb; [ | lia].
  assert (Hp : 0 < 2 ^ (Zpos k - 1)) by (apply Z.pow_pos_nonneg; lia).
  replace (Zpos k) with (Z.succ (Zpos k - 1)) at 2 by lia.
  rewrite Z.pow_succ_r by lia. rewrite (Z.mul_comm 2).
  rewrite Z.rem_mul_r by lia. rewrite Hb.
  pose proof (Z.mod_pos_bound a (2 ^ (Zpos k - 1)) Hp). lia.
Qed.

Lemma fexp_eq (x : Z) : fexp prec emax x = Z.max (x - 53) (-1074).
Proof. reflexivity. Qed.

Lemma round_nearest_even_spec (mrs : shr_record) :
  let m1 := round_nearest_even (shr_m mrs) (loc_of_shr_record mrs) in
  m1 = shr_m mrs \/ (m1 = shr_m mrs + 1 /\ shr_r mrs = true).
Proof.
  destruct mrs as [m [ | ] [ | ]]; cbn; try (left; reflexivity).
  - right. split; reflexivity.
  - destruct (Z.even m); [left | right; split]; reflexivity.
Qed.

Lemma shr_fexp_id (m : positive) (e : Z) :
  canonical_mantissa prec emax m e = true ->
  shr_fexp prec emax (Zpos m) e loc_Exact = (Build_shr_record (Zpos m) false false, e).
Proof.
  unfold canonical_mantissa, shr_fexp. intros H. apply Z.eqb_eq in H.
  cbn [Zdigits2]. rewrite H, Z.sub_diag. reflexivity.
Qed.

Lemma shr_fexp_shift (P : positive) (E : Z) (k : positive) :
  fexp prec emax (Zpos (digits2_pos P) + E) = E + Zpos k ->
  exists mrs,
    shr_fexp prec emax (Zpos P) E loc_Exact = (mrs, E + Zpos k)
    /\ shr_m mrs = Zpos P / 2 ^ Zpos k
    /\ shr_r mrs = Z.testbit (Zpos P) (Zpos k - 1).
Proof.
  intros H. unfold shr_fexp. cbn [Zdigits2]. rewrite H.
  replace (E + Zpos k - E) with (Zpos k) by lia.
  cbn [shr shr_record_of_loc].
  eexists. split; [reflexivity | ]. apply shr_iter. lia.
Qed.

Lemma binary_round_aux_canonical (sx : bool) (m : positive) (e : Z) :
  canonical_mantissa prec emax m e = true ->
  e <= emax - prec ->
  binary_round_aux prec emax sx (Zpos m) e loc_Exact = S754_finite sx m e.
Proof.
  intros Hc He. unfold binary_round_aux.
  rewrite (shr_fexp_id m e Hc). cbn [shr_m loc_of_shr_record round_nearest_even].
  rewrite (shr_fexp_id m e Hc). cbn [shr_m].
  apply Z.leb_le in He. rewrite He. reflexivity.
Qed.

Lemma canonical_normal (m : positive) (e : Z) :
  2 ^ 52 <= Zpos m < 2 ^ 53 -> -1074 <= e ->
  canonical_mantissa prec emax m e = true.
Proof.
  intros Hm He. unfold canonical_mantissa. apply Z.eqb_eq.
  rewrite (digits2_pos_unique m 53) by exact Hm.
  rewrite fexp_eq. lia.
Qed.

(** Rounding a product mantissa of [53 + k] digits: the result keeps 53
    digits, its value is [m1 * 2 ^ (E + k)] where [m1] is the quotient of
    [P] by [2 ^ k] or its successor, the successor only when the
    remainder reaches one half. *)
Lemma binary_round_aux_shift (sx : bool) (P : positive) (E : Z) (k : positive) :
  Zpos (digits2_pos P) = 53 + Zpos k ->
  -1074 <= E + Zpos k ->
  E + Zpos k + 1 <= 971 ->
  exists (m1 : Z) (mR : positive) (eR : Z),
    binary_round_aux prec emax sx (Zpos P) E loc_Exact = S754_finite sx mR eR
    /\ (m1 = Zpos P / 2 ^ Zpos k
        \/ (m1 = Zpos P / 2 ^ Zpos k + 1 /\ 2 ^ (Zpos k - 1) <= Zpos P mod 2 ^ Zpos k))
    /\ 2 ^ 52 <= Zpos mR < 2 ^ 53
    /\ E <= eR
    /\ Zpos mR * 2 ^ (eR - E) = m1 * 2 ^ Zpos k.
Proof.
  intros Hd Hlo Hhi.
  destruct (shr_fexp_shift P E k) as (mrs & Hs & Hm & Hr).
  { rewrite fexp_eq, Hd. lia. }
  pose proof (digits2_pos_bounds P) as HP. rewrite Hd in HP.
  assert (HK : 0 < 2 ^ Zpos k) by (apply Z.pow_pos_nonneg; lia).
  replace (53 + Zpos k - 1) with (52 + Zpos k) in HP by lia.
  rewrite !Z.pow_add_r in HP by lia.
  assert (Hq : 2 ^ 52 <= Zpos P / 2 ^ Zpos k < 2 ^ 53).
  { split.
    - apply Z.div_le_lower_bound; lia.
    - apply Z.div_lt_upper_bound; lia. }
  unfold binary_round_aux. rewrite Hs.
  pose proof (round_nearest_even_spec mrs) as Hrne. cbv zeta in Hrne.
  set (m1 := round_nearest_even (shr_m mrs) (loc_of_shr_record mrs)) in *.
  rewrite Hm in Hrne.
  assert (Hm1 : m1 = Zpos P / 2 ^ Zpos k
        \/ (m1 = Zpos P / 2 ^ Zpos k + 1 /\ 2 ^ (Zpos k - 1) <= Zpos P mod 2 ^ Zpos k)).
  { destruct Hrne as [H1 | [H1 H2]]; [left; exact H1 | right; split; [exact H1 | ]].
    apply testbit_half. rewrite <- Hr. exact H2. }
  assert (Hb : 2 ^ 52 <= m1 <= 2 ^ 53) by lia.
  destruct (Z.eq_dec m1 (2 ^ 53)) as [Htop | Hlt].
  - (* the mantissa carried into a 54th digit *)
    exists m1, 4503599627370496%positive, (E + Zpos k + 1).
    rewrite Htop. change (2 ^ 53) with (Zpos 9007199254740992).
    destruct (shr_fexp_shift 9007199254740992 (E + Zpos k) 1) as (mrs' & Hs' & Hm' & _).
    { rewrite fexp_eq. change (Zpos (digits2_pos 9007199254740992)) with 54. lia. }
    rewrite Hs'. rewrite Hm'.
    change (Zpos 9007199254740992 / 2 ^ 1) with (Zpos 4503599627370496).
    cbv iota beta.
    replace (E + Zpos k + 1 <=? emax - prec) with true
      by (symmetry; apply Z.leb_le; unfold emax, prec; lia).
    split; [reflexivity | ]. split; [rewrite Htop in Hm1; exact Hm1 | ].
    split; [split; [discriminate | reflexivity] | ].
    split; [lia | ].
    replace (E + Zpos k + 1 - E) with (Z.succ (Zpos k)) by lia.
    rewrite Z.pow_succ_r by lia. lia.
  - destruct m1 as [ | p1 | p1 ] eqn:E1; try lia.
    exists (Zpos p1), p1, (E + Zpos k).
    assert (Hc : canonical_mantissa prec emax p1 (E + Zpos k) = true)
      by (apply canonical_normal; lia).
    rewrite (shr_fexp_id p1 _ Hc). cbn [shr_m].
    replace (E + Zpos k <=? emax - prec) with true
      by (symmetry; apply Z.leb_le; unfold emax, prec; lia).
    split; [reflexivity | ]. split; [exact Hm1 | ].
    split; [lia | ]. split; [lia | ].
    replace (E + Zpos k - E) with (Zpos k) by lia. reflexivity.
Qed.

Lemma shl_align_spec (mx : positive) (ex ex' : Z) :
  ex' <= ex ->
  shl_align mx ex ex' = (Z.to_pos (Zpos mx * 2 ^ (ex - ex')), ex').
Proof.
  intros H. unfold shl_align. destruct (ex' - ex) as [ | d | d ] eqn:Hd; try lia.
  - replace ex' with ex by lia. rewrite Z.sub_diag, Z.mul_1_r. reflexivity.
  - replace (ex - ex') with (Zpos d) by lia. f_equal.
    apply Pos2Z.inj. rewrite Z2Pos.id by (apply Z.mul_pos_pos; [ | apply Z.pow_pos_nonneg]; lia).
    clear. induction d as [ | d IH] using Pos.peano_ind.
    + cbn [Pos.iter]. rewrite (Pos2Z.inj_xO mx). change (2 ^ 1) with 2. ring.
    + rewrite Pos.iter_succ, Pos2Z.inj_succ, Z.pow_succ_r by lia.
      rewrite (Pos2Z.inj_xO (Pos.iter xO mx d)), IH. ring.
Qed.

(** A positive integer below 2^53 is represented exactly, with a mantissa
    of 53 digits. *)
Lemma num_of_Z_pos (z : Z) :
  0 < z < 2 ^ 53 ->
  exists (mc : positive) (ec : Z),
    num_of_Z z = S754_finite false mc ec
    /\ -52 <= ec <= 0
    /\ Zpos mc = z * 2 ^ (- ec)
    /\ 2 ^ 52 <= Zpos mc < 2 ^ 53.
Proof.
  intros [Hz Hlt]. destruct z as [ | p | p ]; try lia.
  pose proof (digits2_pos_bounds p) as Hp.
  set (d := Zpos (digits2_pos p)) in *.
  assert (Hd : 1 <= d <= 53).
  { split; [subst d; lia | ].
    destruct (Z.le_gt_cases d 53) as [ | Hgt]; [assumption | ].
    assert (2 ^ 53 <= 2 ^ (d - 1)) by (apply Z.pow_le_mono_r; lia). lia. }
  assert (Hpow : 0 < 2 ^ (53 - d)) by (apply Z.pow_pos_nonneg; lia).
  assert (Hm : 2 ^ 52 <= Zpos p * 2 ^ (53 - d) < 2 ^ 53).
  { assert (E52 : 2 ^ 52 = 2 ^ (d - 1) * 2 ^ (53 - d))
      by (rewrite <- Z.pow_add_r by lia; f_equal; lia).
    assert (E53 : 2 ^ 53 = 2 ^ d * 2 ^ (53 - d))
      by (rewrite <- Z.pow_add_r by lia; f_equal; lia).
    rewrite E52, E53. split.
    - apply Z.mul_le_mono_nonneg_r; lia.
    - apply Z.mul_lt_mono_pos_r; lia. }
  exists (Z.to_pos (Zpos p * 2 ^ (53 - d))), (d - 53).
  assert (Hid : Zpos (Z.to_pos (Zpos p * 2 ^ (53 - d))) = Zpos p * 2 ^ (53 - d))
    by (apply Z2Pos.id; lia).
  split; [ | split; [lia | split]].
  - unfold num_of_Z, binary_normalize, binary_round.
    rewrite fexp_eq. fold d.
    replace (Z.max (d + 0 - 53) (-1074)) with (d - 53) by lia.
    rewrite shl_align_spec by lia.
    replace (0 - (d - 53)) with (53 - d) by lia.
    apply binary_round_aux_canonical.
    + apply canonical_normal; [rewrite Hid; exact Hm | lia].
    + unfold emax, prec. lia.
  - rewrite Hid. f_equal. f_equal. lia.
  - rewrite Hid. exact Hm.
Qed.

Lemma scaled_lt (x y a c : Z) :
  0 < a -> 0 < c ->
  x < 9007199254740992 -> 4503599627370496 <= y ->
  x * a < y * (2 * c * a).
Proof.
  intros Ha Hc Hx Hy.
  apply Z.lt_le_trans with (9007199254740992 * a).
  - apply Z.mul_lt_mono_pos_r; assumption.
  - apply Z.le_trans with (4503599627370496 * (2 * c * a)).
    + replace (4503599627370496 * (2 * c * a)) with (9007199254740992 * a * c) by ring.
      rewrite <- (Z.mul_1_r (9007199254740992 * a)) at 1.
      apply Z.mul_le_mono_nonneg_l; lia.
    + apply Z.mul_le_mono_nonneg_r; [ | assumption].
      apply Z.mul_nonneg_nonneg; lia.
Qed.

(** Comparison of two positive numbers with 53-digit mantissas is the
    comparison of their values, here scaled by [2 ^ (- E)]. *)
Lemma SFltb_normal (m1 m2 : positive) (e1 e2 E : Z) :
  2 ^ 52 <= Zpos m1 < 2 ^ 53 ->
  2 ^ 52 <= Zpos m2 < 2 ^ 53 ->
  E <= e1 -> E <= e2 ->
  SFltb (S754_finite false m1 e1) (S754_finite false m2 e2)
  = (Zpos m1 * 2 ^ (e1 - E) <? Zpos m2 * 2 ^ (e2 - E)).
Proof.
  intros H1 H2 He1 He2. unfold SFltb, SFcompare.
  change (2 ^ 52) with 4503599627370496 in *.
  change (2 ^ 53) with 9007199254740992 in *.
  assert (Ha : 0 < 2 ^ (e1 - E)) by (apply Z.pow_pos_nonneg; lia).
  assert (Hb : 0 < 2 ^ (e2 - E)) by (apply Z.pow_pos_nonneg; lia).
  destruct (Z.compare_spec e1 e2) as [Heq | Hlt | Hgt].
  - subst e2. change (Pos.compare_cont Eq m1 m2) with (Pos.compare m1 m2).
    rewrite Pos2Z.inj_compare.
    destruct (Z.compare_spec (Zpos m1) (Zpos m2)) as [Hc | Hc | Hc];
      symmetry; [apply Z.ltb_ge | apply Z.ltb_lt | apply Z.ltb_ge]; nia.
  - symmetry. apply Z.ltb_lt.
    replace (e2 - E) with (Z.succ (e2 - e1 - 1) + (e1 - E)) by lia.
    rewrite Z.pow_add_r, Z.pow_succ_r by lia.
    assert (Hc : 0 < 2 ^ (e2 - e1 - 1)) by (apply Z.pow_pos_nonneg; lia).
    apply (scaled_lt _ _ _ _ Ha Hc); lia.
  - symmetry. apply Z.ltb_ge.
    replace (e1 - E) with (Z.succ (e1 - e2 - 1) + (e2 - E)) by lia.
    rewrite Z.pow_add_r, Z.pow_succ_r by lia.
    assert (Hc : 0 < 2 ^ (e1 - e2 - 1)) by (apply Z.pow_pos_nonneg; lia).
    apply Z.lt_le_incl. apply (scaled_lt _ _ _ _ Hb Hc); lia.
Qed.

(** The product of a 53-digit mantissa with the mantissa of [0.1] has 105
    or 106 digits. *)
Lemma digits_times_tenth (mn : positive) :
  2 ^ 52 <= Zpos mn < 2 ^ 53 ->
  Zpos (digits2_pos (mn * 7205759403792794)) = 53 + 52
  \/ Zpos (digits2_pos (mn * 7205759403792794)) = 53 + 53.
Proof.
  intros Hm.
  change (2 ^ 52) with 4503599627370496 in Hm.
  change (2 ^ 53) with 9007199254740992 in Hm.
  destruct (Z.lt_ge_cases (Zpos (mn * 7205759403792794)) (2 ^ 105)) as [Hlt | Hge];
    [left | right]; apply digits2_pos_unique; rewrite Pos2Z.inj_mul in *.
  - change (2 ^ (53 + 52 - 1)) with 20282409603651670423947251286016.
    change (2 ^ (53 + 52)) with (2 ^ 105). lia.
  - change (2 ^ (53 + 53 - 1)) with (2 ^ 105).
    change (2 ^ (53 + 53)) with 81129638414606681695789005144064. lia.
Qed.

(** [count > length * 0.1] in binary64 is [length < 10 * count] on the
    integers, for lengths below 2^50. *)
Lemma tenth_threshold (n m : Z) :
  0 <= m <= n -> n < 2 ^ 50 ->
  num_lt (num_mul (num_of_Z n) lit_0_1) (num_of_Z m) = (n <? 10 * m).
Proof.
  intros Hmn Hn.
  destruct (Z.eq_dec n 0) as [-> | Hn0].
  { replace m with 0 by lia. reflexivity. }
  change (2 ^ 50) with 1125899906842624 in Hn.
  destruct (num_of_Z_pos n) as (mn & en & Hrn & Hen & Hvn & Hbn).
  { change (2 ^ 53) with 9007199254740992. lia. }
  rewrite Hrn. unfold num_mul, lit_0_1. cbn [SFmul xorb].
  assert (HJ : 8 <= 2 ^ (- en)).
  { destruct (Z.le_gt_cases 3 (- en)) as [Hle | Hgt].
    - change 8 with (2 ^ 3). apply Z.pow_le_mono_r; lia.
    - assert (2 ^ (- en) <= 2 ^ 2) by (apply Z.pow_le_mono_r; lia).
      change (2 ^ 2) with 4 in *. change (2 ^ 52) with 4503599627370496 in Hbn. nia. }
  set (J := 2 ^ (- en)) in *.
  destruct (digits_times_tenth mn Hbn) as [Hd | Hd];
    (destruct (binary_round_aux_shift false (mn * 7205759403792794) (en + -56) _ Hd)
      as (m1 & mR & eR & Hres & Hm1 & HbR & HeR & HvR); [lia | lia | ]);
    rewrite Hres; clear Hres.
  all: destruct (Z.eq_dec m 0) as [-> | Hm0];
    [ symmetry; apply Z.ltb_ge; lia | ].
  all: destruct (num_of_Z_pos m) as (mc & ec & Hrm & Hec & Hvm & Hbm);
    [ change (2 ^ 53) with 9007199254740992; lia | ].
  all: rewrite Hrm; unfold num_lt;
    rewrite (SFltb_normal mR mc eR ec (en + -56) HbR Hbm HeR) by lia;
    rewrite HvR, Hvm.
  all: replace (m * 2 ^ (- ec) * 2 ^ (ec - (en + -56))) with (m * J * 2 ^ 56)
    by (subst J; rewrite <- !Z.mul_assoc, <- !Z.pow_add_r by lia; do 2 f_equal; lia).
  all: assert (Hmj : m * J <= n * J) by (apply Z.mul_le_mono_nonneg_r; lia).
  all: rewrite Pos2Z.inj_mul in Hm1.
  all: rewrite Hvn in Hm1, Hbn.
  all: change (2 ^ 52) with 4503599627370496 in *;
       change (2 ^ 53) with 9007199254740992 in *;
       change (2 ^ 56) with 72057594037927936 in *;
       change (2 ^ (52 - 1)) with 2251799813685248 in *;
       change (2 ^ (53 - 1)) with 4503599627370496 in *.
  all: set (P := n * J * 7205759403792794) in *.
  - pose proof (Z.div_mod P 4503599627370496 ltac:(lia)) as Hdiv.
    pose proof (Z.mod_pos_bound P 4503599627370496 ltac:(lia)) as Hmod.
    destruct (Z.ltb_spec n (10 * m)) as [Hc | Hc].
    + assert (n * J + J <= 10 * (m * J)) by nia.
      apply Z.ltb_lt. lia.
    + assert (10 * (m * J) <= n * J) by nia.
      apply Z.ltb_ge. lia.
  - pose proof (Z.div_mod P 9007199254740992 ltac:(lia)) as Hdiv.
    pose proof (Z.mod_pos_bound P 9007199254740992 ltac:(lia)) as Hmod.
    destruct (Z.ltb_spec n (10 * m)) as [Hc | Hc].
    + assert (n * J + J <= 10 * (m * J)) by nia.
      apply Z.ltb_lt. lia.
    + assert (10 * (m * J) <= n * J) by nia.
      apply Z.ltb_ge. lia.
Qed.

Lemma digits_shift (mx k : positive) :
  Zpos (digits2_pos (mx * Z.to_pos (2 ^ Zpos k))) = Zpos (digits2_pos mx) + Zpos k.
Proof.
  assert (HK : 0 < 2 ^ Zpos k) by (apply Z.pow_pos_nonneg; lia).
  apply digits2_pos_unique. rewrite Pos2Z.inj_mul, Z2Pos.id by exact HK.
  pose proof (digits2_pos_bounds mx) as [Hl Hu].
  replace (Zpos (digits2_pos mx) + Zpos k - 1) with (Zpos (digits2_pos mx) - 1 + Zpos k) by lia.
  rewrite !Z.pow_add_r by lia. split.
  - apply Z.mul_le_mono_nonneg_r; lia.
  - apply Z.mul_lt_mono_pos_r; lia.
Qed.

(** A canonical mantissa scaled by a power of two rounds back to itself. *)
Lemma binary_round_aux_scaled (sx : bool) (mx : positive) (ex : Z) (k : positive) :
  canonical_mantissa prec emax mx ex = true ->
  ex <= emax - prec ->
  binary_round_aux prec emax sx (Zpos (mx * Z.to_pos (2 ^ Zpos k))) (ex - Zpos k) loc_Exact
  = S754_finite sx mx ex.
Proof.
  intros Hc He.
  assert (HK : 0 < 2 ^ Zpos k) by (apply Z.pow_pos_nonneg; lia).
  destruct (shr_fexp_shift (mx * Z.to_pos (2 ^ Zpos k)) (ex - Zpos k) k) as (mrs & Hs & Hm & Hr).
  { rewrite digits_shift. unfold canonical_mantissa in Hc. apply Z.eqb_eq in Hc.
    replace (Zpos (digits2_pos mx) + Zpos k + (ex - Zpos k))
      with (Zpos (digits2_pos mx) + ex) by lia.
    rewrite Hc. lia. }
  rewrite Pos2Z.inj_mul, Z2Pos.id in Hm, Hr by exact HK.
  rewrite Z.div_mul in Hm by lia.
  rewrite Z.mul_pow2_bits_low in Hr by lia.
  unfold binary_round_aux. rewrite Hs.
  replace (ex - Zpos k + Zpos k) with ex by lia.
  destruct (round_nearest_even_spec mrs) as [H1 | [_ H2]]; [ | congruence].
  rewrite H1, Hm. rewrite (shr_fexp_id mx ex Hc). cbn [shr_m].
  apply Z.leb_le in He. rewrite He. reflexivity.
Qed.

(** [x * 1 = x] for every number. *)
Lemma num_mul_1_r (x : spec_float) :
  valid x = true -> num_mul x (num_of_Z 1) = x.
Proof.
  intros Hv. change (num_of_Z 1) with (S754_finite false 4503599627370496 (-52)).
  destruct x as [s | s | | s m e]; cbn [num_mul SFmul]; unfold num_mul; cbn [SFmul];
    rewrite ?xorb_false_r; try reflexivity.
  unfold valid, valid_binary, bounded in Hv. apply andb_prop in Hv as [Hc He].
  apply Z.leb_le in He.
  change 4503599627370496%positive with (Z.to_pos (2 ^ Zpos 52)).
  change (e + -52) with (e - Zpos 52).
  apply binary_round_aux_scaled; assumption.
Qed.

(** The bound of [tenth_threshold] cannot be dropped altogether: near
    2^53, a length no engine allows, the rounded product reaches the
    count. *)
Remark tenth_threshold_bound :
  num_lt (num_mul (num_of_Z 8999999999999999) lit_0_1) (num_of_Z 900000000000000) = false
  /\ (8999999999999999 <? 10 * 900000000000000) = true.
Proof. split; reflexivity. Qed.

(** The three decimal literals of the scripts, as mantissa and exponent. *)
Lemma literal_values :
  lit_0_1 = S754_finite false 7205759403792794 (-56)
  /\ lit_1_2 = S754_finite false 5404319552844595 (-52)
  /\ lit_0_8 = S754_finite false 7205759403792794 (-53).
Proof. repeat split; reflexivity. Qed.

End Binary64.

(** ** Strings *)

Section StringFacts.

Lemma eqb_eq (s t : jsstring) : JSString.eqb s t = true <-> s = t.
Proof.
  revert t. induction s as [ | c s IH]; intros [ | d t]; simpl; split;
    try discriminate; try reflexivity.
  - intros H. apply andb_prop in H as [Hc Hs].
    apply Z.eqb_eq in Hc. apply IH in Hs. congruence.
  - intros H. injection H as -> ->. rewrite Z.eqb_refl. simpl. apply IH. reflexivity.
Qed.

Lemma eqb_refl (s : jsstring) : JSString.eqb s s = true.
Proof. apply eqb_eq. reflexivity. Qed.

Lemma includes_In (arr : list jsstring) (x : jsstring) :
  includes arr x = true <-> In x arr.
Proof.
  unfold includes. rewrite existsb_exists. split.
  - intros (y & Hy & He). apply eqb_eq in He. subst. exact Hy.
  - intros H. exists x. split; [exact H | apply eqb_refl].
Qed.

Lemma includes_not_In (arr : list jsstring) (x : jsstring) :
  ~ In x arr -> includes arr x = false.
Proof.
  intros H. destruct (includes arr x) eqn:E; [ | reflexivity].
  apply includes_In in E. contradiction.
Qed.

End StringFacts.

(** ** The direction resolver *)

Section DirectionFacts.

Import Direction.

Variable toLowerCase : jsstring -> jsstring.

Lemma matches_length (text : jsstring) :
  length (matches text) = rtlCount text.
Proof.
  unfold matches, match_global, rtlCount.
  destruct (filter rtlCharPattern text) as [ | c l]; [reflexivity | ].
  apply length_map.
Qed.

Lemma rtlCount_le (text : jsstring) : (rtlCount text <= length text)%nat.
Proof. unfold rtlCount. apply filter_length_le. Qed.

(** The comparison of [hasRTLCharacters], computed in binary64, decides
    whether ten times the count exceeds the length. *)
Lemma hasRTLCharacters_spec (text : jsstring) :
  Z.of_nat (length text) < 2 ^ 50 ->
  hasRTLCharacters text
  = (Z.of_nat (length text) <? 10 * Z.of_nat (rtlCount text)).
Proof.
  intros Hlen. unfold hasRTLCharacters, num_gt. rewrite matches_length.
  apply Binary64.tenth_threshold; [ | exact Hlen].
  pose proof (rtlCount_le text). lia.
Qed.

Lemma pass_rtl_lang (d : document) (el : element) :
  htmlElement d = Some el ->
  In (langCode toLowerCase (or_en (attr_lang el))) rtlLanguages ->
  pass toLowerCase d
  = Normal (tt, (mkDocument (Some (mkElement (attr_lang el) (Some (js "rtl"%string))))
                            (body_innerText d),
                 [GetLang; SetDir (js "rtl"%string)])).
Proof.
  intros Hel Hin. apply includes_In in Hin.
  unfold pass, setPageDirection, bind, getAttribute_lang. cbn [fst snd].
  rewrite Hel, Hin. unfold setAttribute_dir. cbn [fst snd]. rewrite Hel. reflexivity.
Qed.

Lemma pass_content (d : document) (el : element) :
  htmlElement d = Some el ->
  ~ In (langCode toLowerCase (or_en (attr_lang el))) rtlLanguages ->
  pass toLowerCase d
  = let v := if hasRTLCharacters (body_innerText d)
             then js "rtl"%string else js "ltr"%string in
    Normal (tt, (mkDocument (Some (mkElement (attr_lang el) (Some v))) (body_innerText d),
                 [GetLang; GetInnerText; SetDir v])).
Proof.
  intros Hel Hin.
  unfold pass, setPageDirection, bind, getAttribute_lang. cbn [fst snd].
  rewrite Hel, (includes_not_In _ _ Hin). unfold innerText. cbn [fst snd].
  destruct (hasRTLCharacters (body_innerText d));
    unfold setAttribute_dir; cbn [fst snd]; rewrite Hel; reflexivity.
Qed.

Lemma dir_after_content (d : document) (el : element) :
  htmlElement d = Some el ->
  ~ In (langCode toLowerCase (or_en (attr_lang el))) rtlLanguages ->
  dir_after toLowerCase d
  = Some (if hasRTLCharacters (body_innerText d)
          then js "rtl"%string else js "ltr"%string).
Proof.
  intros Hel Hin. unfold dir_after.
  rewrite (pass_content d el Hel Hin). reflexivity.
Qed.

(** C2: when the primary subtag of the language tag is not an RTL code,
    the direction is [rtl] exactly when the number of code units in
    U+0590..U+08FF strictly exceeds one tenth of the length of the body
    text, and [ltr] exactly when it is at most one tenth (so exactly one
    tenth gives [ltr]). Lengths are below 2^50, which every string of an
    ECMAScript engine is. *)
Theorem content_direction_threshold (d : document) (el : element) :
  htmlElement d = Some el ->
  ~ In (langCode toLowerCase (or_en (attr_lang el))) rtlLanguages ->
  Z.of_nat (length (body_innerText d)) < 2 ^ 50 ->
  (dir_after toLowerCase d = Some (js "rtl"%string)
   <-> Z.of_nat (length (body_innerText d)) < 10 * Z.of_nat (rtlCount (body_innerText d)))
  /\ (dir_after toLowerCase d = Some (js "ltr"%string)
      <-> 10 * Z.of_nat (rtlCount (body_innerText d)) <= Z.of_nat (length (body_innerText d))).
Proof.
  intros Hel Hin Hlen. rewrite (dir_after_content d el Hel Hin).
  rewrite (hasRTLCharacters_spec _ Hlen).
  destruct (Z.ltb_spec (Z.of_nat (length (body_innerText d)))
              (10 * Z.of_nat (rtlCount (body_innerText d)))) as [Hlt | Hge].
  - split; split; intros H; try reflexivity; try lia. discriminate H.
  - split; split; intros H; try reflexivity; try lia. discriminate H.
Qed.

(** C4: when the primary subtag of the language tag, lower-cased, is one
    of ar, he, fa, ur, yi, ji, iw, ku, the pass sets [dir] to [rtl] and
    returns after reading the [lang] attribute only: the body text is not
    read, and the outcome is the same whatever it is. *)
Theorem rtl_language_sets_rtl (d : document) (el : element) :
  htmlElement d = Some el ->
  In (langCode toLowerCase (or_en (attr_lang el))) rtlLanguages ->
  dir_after toLowerCase d = Some (js "rtl"%string)
  /\ reads_body toLowerCase d = false
  /\ (exists d', pass toLowerCase d
                 = Normal (tt, (d', [GetLang; SetDir (js "rtl"%string)])))
  /\ forall text : jsstring,
      dir_after toLowerCase (mkDocument (htmlElement d) text) = Some (js "rtl"%string)
      /\ reads_body toLowerCase (mkDocument (htmlElement d) text) = false.
Proof.
  intros Hel Hin.
  assert (Hall : forall text,
             dir_after toLowerCase (mkDocument (htmlElement d) text) = Some (js "rtl"%string)
             /\ reads_body toLowerCase (mkDocument (htmlElement d) text) = false).
  { intros text. unfold dir_after, reads_body.
    rewrite (pass_rtl_lang (mkDocument (htmlElement d) text) el Hel Hin).
    split; reflexivity. }
  unfold dir_after, reads_body.
  rewrite (pass_rtl_lang d el Hel Hin).
  repeat split; try apply Hall. eexists. reflexivity.
Qed.

(** C8: with an empty body text and a language tag that is not an RTL
    code the pass returns normally and sets [dir] to [ltr]; the comparison
    of [hasRTLCharacters] on the empty text is [0 > 0 * 0.1], which is
    false. *)
Theorem empty_body_is_ltr (d : document) (el : element) :
  htmlElement d = Some el ->
  ~ In (langCode toLowerCase (or_en (attr_lang el))) rtlLanguages ->
  body_innerText d = [] ->
  hasRTLCharacters (body_innerText d) = false
  /\ num_mul (num_of_Z (Z.of_nat (length (body_innerText d)))) lit_0_1 = num_of_Z 0
  /\ pass toLowerCase d
     = Normal (tt, (mkDocument (Some (mkElement (attr_lang el) (Some (js "ltr"%string)))) [],
                    [GetLang; GetInnerText; SetDir (js "ltr"%string)]))
  /\ dir_after toLowerCase d = Some (js "ltr"%string).
Proof.
  intros Hel Hin Hbody.
  rewrite (dir_after_content d el Hel Hin), (pass_content d el Hel Hin).
  rewrite Hbody. repeat split; reflexivity.
Qed.

(** C7 (resolver): when [getElementById('html-element')] returns null the
    first pass throws a [TypeError], whatever the body text; the adapter,
    next to it, returns without registering anything when its container is
    missing. *)
Theorem missing_root_element_throws (text : jsstring) (n : nat) :
  resolver_onLoad toLowerCase (mkDocument None text) = Throw TypeError
  /\ Timeline.adapter_onLoad None n = Normal [].
Proof. split; reflexivity. Qed.

End DirectionFacts.

(** ** The wheel and keyboard listeners of the container *)

Section ScrollFacts.

Import Timeline.

(** The condition under which the wheel listener acts. *)
Lemma onWheel_cases (t : timeline_el) (e : wheel_event) :
  (scrollWidth t > clientWidth t + 1
   /\ num_gt (num_abs (deltaY e)) (num_abs (deltaX e)) = true
   /\ onWheel t e
      = [PreventDefault; ScrollBy (num_mul (normalizeDeltaY e) speed) Auto])
  \/ (~ (scrollWidth t > clientWidth t + 1
         /\ num_gt (num_abs (deltaY e)) (num_abs (deltaX e)) = true)
      /\ onWheel t e = []).
Proof.
  unfold onWheel, canScrollHorizontally.
  destruct (Z.gtb_spec (scrollWidth t) (clientWidth t + 1)) as [Hgt | Hle]; cbn [negb].
  - destruct (num_gt (num_abs (deltaY e)) (num_abs (deltaX e))).
    + left. repeat split. lia.
    + right. split; [intros [_ H]; discriminate H | reflexivity].
  - right. split; [intros [H _]; lia | reflexivity].
Qed.

(** C1: the wheel listener calls [preventDefault] and [scrollBy] exactly
    when [scrollWidth > clientWidth + 1] and [|deltaY| > |deltaX|]; in
    every other case it makes no call at all. *)
Theorem wheel_acts_iff (t : timeline_el) (e : wheel_event) :
  let overflow := scrollWidth t > clientWidth t + 1 in
  let vertical := num_gt (num_abs (deltaY e)) (num_abs (deltaX e)) = true in
  (In PreventDefault (onWheel t e) <-> overflow /\ vertical)
  /\ ((exists left b, In (ScrollBy left b) (onWheel t e)) <-> overflow /\ vertical)
  /\ (overflow /\ vertical ->
      onWheel t e = [PreventDefault; ScrollBy (num_mul (normalizeDeltaY e) speed) Auto])
  /\ (~ (overflow /\ vertical) -> onWheel t e = []).
Proof.
  cbv zeta.
  destruct (onWheel_cases t e) as [(Ho & Hv & Heq) | (Hn & Heq)]; rewrite Heq.
  - split; [ | split; [ | split]].
    + split; [intros _; split; assumption | intros _; left; reflexivity].
    + split; [intros _; split; assumption | ].
      intros _. exists (num_mul (normalizeDeltaY e) speed), Auto.
      right. left. reflexivity.
    + intros _. reflexivity.
    + intros Hnot. exfalso. apply Hnot. split; assumption.
  - split; [ | split; [ | split]].
    + split; [intros Hin; destruct Hin | intros Hc; contradiction].
    + split; [intros (left & b & Hin); destruct Hin | intros Hc; contradiction].
    + intros Hc. contradiction.
    + intros _. reflexivity.
Qed.

Lemma normalizeDeltaY_factor (e : wheel_event) :
  valid (deltaY e) = true ->
  normalizeDeltaY e = num_mul (deltaY e) (spec_factor (deltaMode e)).
Proof.
  intros Hv. unfold normalizeDeltaY, spec_factor.
  destruct (deltaMode e =? 1); [reflexivity | ].
  destruct (deltaMode e =? 2); [reflexivity | ].
  symmetry. apply Binary64.num_mul_1_r. exact Hv.
Qed.

(** C5: a wheel event that the listener transforms requests the offset
    [deltaY * f * 1.2], with [f = 16] in line mode, [f = 800] in page mode
    and [f = 1] otherwise, all products in binary64. With [deltaY = 100]
    in pixel mode the request is 120; [deltaY = 10] in line mode is
    normalised to 160. *)
Theorem wheel_offset (t : timeline_el) (e : wheel_event) :
  valid (deltaY e) = true ->
  onWheel t e <> [] ->
  onWheel t e
  = [PreventDefault;
     ScrollBy (num_mul (num_mul (deltaY e) (spec_factor (deltaMode e))) lit_1_2) Auto]
  /\ spec_factor 1 = num_of_Z 16
  /\ spec_factor 2 = num_of_Z 800
  /\ spec_factor 0 = num_of_Z 1
  /\ onWheel (mkTimeline 1000 500) (mkWheel (num_of_Z 0) (num_of_Z 100) 0)
     = [PreventDefault; ScrollBy (num_of_Z 120) Auto]
  /\ normalizeDeltaY (mkWheel (num_of_Z 0) (num_of_Z 10) 1) = num_of_Z 160.
Proof.
  intros Hv Hne. split; [ | repeat split; reflexivity].
  destruct (onWheel_cases t e) as [(_ & _ & Heq) | (_ & Heq)]; [ | contradiction].
  rewrite Heq, (normalizeDeltaY_factor e Hv). reflexivity.
Qed.

Lemma onKeydown_keys (t : timeline_el) :
  onKeydown t (js "ArrowRight"%string) = [PreventDefault; ScrollBy (num_of_Z 260) Smooth]
  /\ onKeydown t (js "ArrowLeft"%string) = [PreventDefault; ScrollBy (num_of_Z (-260)) Smooth]
  /\ onKeydown t (js "PageDown"%string)
     = [PreventDefault; ScrollBy (num_mul (num_of_Z (clientWidth t)) lit_0_8) Smooth]
  /\ onKeydown t (js "PageUp"%string)
     = [PreventDefault;
        ScrollBy (num_neg (num_mul (num_of_Z (clientWidth t)) lit_0_8)) Smooth].
Proof. repeat split; reflexivity. Qed.

(** C6: on the container, ArrowRight requests a scroll by +260 and
    ArrowLeft by -260, PageDown by [clientWidth * 0.8] and PageUp by the
    opposite of it; each of the four calls [preventDefault] and asks for
    the [smooth] behavior. With [clientWidth = 500] the page step is 400. *)
Theorem keydown_scrolls (t : timeline_el) :
  onKeydown t (js "ArrowRight"%string)
  = [PreventDefault; ScrollBy (num_of_Z 260) Smooth]
  /\ onKeydown t (js "ArrowLeft"%string)
     = [PreventDefault; ScrollBy (num_of_Z (-260)) Smooth]
  /\ onKeydown t (js "PageDown"%string)
     = [PreventDefault; ScrollBy (num_mul (num_of_Z (clientWidth t)) lit_0_8) Smooth]
  /\ onKeydown t (js "PageUp"%string)
     = [PreventDefault;
        ScrollBy (num_neg (num_mul (num_of_Z (clientWidth t)) lit_0_8)) Smooth]
  /\ onKeydown (mkTimeline 1000 500) (js "PageDown"%string)
     = [PreventDefault; ScrollBy (num_of_Z 400) Smooth]
  /\ onKeydown (mkTimeline 1000 500) (js "PageUp"%string)
     = [PreventDefault; ScrollBy (num_of_Z (-400)) Smooth].
Proof. repeat split; reflexivity. Qed.

(** C10: the keydown listener makes no overflow check: when the container
    does not overflow ([scrollWidth <= clientWidth + 1]) each of the four
    keys still calls [preventDefault] and [scrollBy], while the wheel
    listener does nothing for any wheel event. *)
Theorem keydown_ignores_overflow (t : timeline_el) (key : jsstring) :
  scrollWidth t <= clientWidth t + 1 ->
  In key [js "ArrowRight"%string; js "ArrowLeft"%string;
          js "PageDown"%string; js "PageUp"%string] ->
  (exists left, onKeydown t key = [PreventDefault; ScrollBy left Smooth])
  /\ forall e : wheel_event, onWheel t e = [].
Proof.
  intros Hno Hkey. split.
  - destruct (onKeydown_keys t) as (H1 & H2 & H3 & H4).
    destruct Hkey as [<- | [<- | [<- | [<- | []]]]]; eexists; eassumption.
  - intros e. destruct (onWheel_cases t e) as [(Ho & _) | (_ & Heq)]; [lia | exact Heq].
Qed.

End ScrollFacts.

(** ** Milestone cards *)

Section CardFacts.

Import Timeline.

Lemma isOpen_remove (c : classList) : isOpen (remove c open) = false.
Proof.
  unfold isOpen, contains, remove.
  induction c as [ | t c IH]; [reflexivity | ].
  cbn [filter]. destruct (JSString.eqb open t) eqn:E; cbn [negb]; [exact IH | ].
  cbn [existsb]. rewrite E. exact IH.
Qed.

Lemma isOpen_add (c : classList) : isOpen (add c open) = true.
Proof.
  unfold isOpen, add. destruct (contains c open) eqn:E; [exact E | ].
  unfold contains. rewrite existsb_app. cbn [existsb].
  rewrite eqb_refl. apply orb_true_iff. right. reflexivity.
Qed.

Lemma allClosed_closeAll (cs : cards) : allClosed (closeAll cs).
Proof.
  unfold allClosed, closeAll. apply Forall_map.
  apply Forall_forall. intros c _. apply isOpen_remove.
Qed.

Lemma openCount_allClosed (cs : cards) : allClosed cs -> openCount cs = 0%nat.
Proof.
  unfold allClosed, openCount. induction 1 as [ | c cs Hc _ IH]; [reflexivity | ].
  cbn [filter]. rewrite Hc. exact IH.
Qed.

Lemma openCount_update_closed (i : nat) (f : classList -> classList) (cs : cards) :
  allClosed cs -> (openCount (update i f cs) <= 1)%nat.
Proof.
  unfold allClosed. intros H. revert i.
  induction H as [ | c cs Hc Hcs IH]; intros i; [destruct i; cbn; lia | ].
  destruct i as [ | i]; cbn [update].
  - pose proof (openCount_allClosed cs Hcs) as H0.
    unfold openCount in *. cbn [filter].
    destruct (isOpen (f c)); cbn [length]; lia.
  - unfold openCount in *. cbn [filter]. rewrite Hc. apply IH.
Qed.

Lemma nth_closeAll (i : nat) (cs : cards) :
  nth i (closeAll cs) [] = remove (nth i cs []) open.
Proof. unfold closeAll. apply (map_nth (fun c => remove c open) cs [] i). Qed.

Lemma nth_update_same (i : nat) (f : classList -> classList) (cs : cards) :
  (i < length cs)%nat -> nth i (update i f cs) [] = f (nth i cs []).
Proof.
  revert i. induction cs as [ | c cs IH]; intros i Hi; cbn in Hi; [lia | ].
  destruct i as [ | i]; cbn [update nth]; [reflexivity | apply IH; lia].
Qed.

Lemma nth_update_other (i j : nat) (f : classList -> classList) (cs : cards) :
  i <> j -> nth i (update j f cs) [] = nth i cs [].
Proof.
  revert i j. induction cs as [ | c cs IH]; intros i j Hij; [destruct j; reflexivity | ].
  destruct j as [ | j]; destruct i as [ | i]; cbn [update nth]; try reflexivity.
  - contradiction.
  - apply IH. congruence.
Qed.

Lemma length_closeAll (cs : cards) : length (closeAll cs) = length cs.
Proof. unfold closeAll. apply length_map. Qed.

Lemma openCount_pos (cs : cards) (b : nat) :
  isOpen (nth b cs []) = true -> (1 <= openCount cs)%nat.
Proof.
  revert b. induction cs as [ | c cs IH]; intros b Hb.
  - destruct b; discriminate Hb.
  - unfold openCount. cbn [filter]. destruct b as [ | b]; cbn [nth] in Hb.
    + rewrite Hb. cbn [length]. lia.
    + specialize (IH b Hb). unfold openCount in IH.
      destruct (isOpen c); cbn [length]; lia.
Qed.

Lemma openCount_two (cs : cards) (a b : nat) :
  (openCount cs <= 1)%nat -> a <> b ->
  isOpen (nth a cs []) = true -> isOpen (nth b cs []) = true -> False.
Proof.
  revert a b. induction cs as [ | c cs IH]; intros a b Hle Hab Ha Hb.
  - destruct a; discriminate Ha.
  - unfold openCount in Hle. cbn [filter] in Hle.
    destruct a as [ | a]; destruct b as [ | b]; cbn [nth] in Ha, Hb.
    + contradiction.
    + rewrite Ha in Hle. cbn [length] in Hle.
      pose proof (openCount_pos cs b Hb) as Hp. unfold openCount in Hp. lia.
    + rewrite Hb in Hle. cbn [length] in Hle.
      pose proof (openCount_pos cs a Ha) as Hp. unfold openCount in Hp. lia.
    + apply (IH a b); try assumption; [ | congruence].
      unfold openCount. destruct (isOpen c); cbn [length] in Hle; lia.
Qed.

(** Each listener keeps at most one card open. *)
Lemma toggleCard_at_most_one (w : window) (i : nat) (l : bool) (cs : cards) :
  (openCount cs <= 1)%nat -> (openCount (toggleCard w i l cs) <= 1)%nat.
Proof.
  intros H. unfold toggleCard.
  destruct (negb (isTouchOrSmall w)); [exact H | ].
  destruct l; [exact H | ].
  destruct (negb (contains (nth i cs []) open)).
  - apply openCount_update_closed, allClosed_closeAll.
  - rewrite (openCount_allClosed _ (allClosed_closeAll cs)). lia.
Qed.

Lemma documentClick_at_most_one (w : window) (b : bool) (cs : cards) :
  (openCount cs <= 1)%nat -> (openCount (documentClick w b cs) <= 1)%nat.
Proof.
  intros H. unfold documentClick.
  destruct (negb (isTouchOrSmall w)); [exact H | ].
  destruct (negb b); [ | exact H].
  rewrite (openCount_allClosed _ (allClosed_closeAll cs)). lia.
Qed.

Lemma dispatch_at_most_one (w : window) (ev : interaction) (cs : cards) :
  (openCount cs <= 1)%nat -> (openCount (dispatch w ev cs) <= 1)%nat.
Proof.
  intros H. destruct ev as [i l | i k l | ]; cbn [dispatch].
  - apply documentClick_at_most_one, toggleCard_at_most_one, H.
  - unfold cardKeydown.
    destruct ((JSString.eqb k (js "Enter"%string) || JSString.eqb k (js " "%string))
              && isTouchOrSmall w); cbn [fst];
      [apply toggleCard_at_most_one, H | exact H].
  - apply documentClick_at_most_one, H.
Qed.

Lemma run_at_most_one (tr : list (window * interaction)) (cs : cards) :
  (openCount cs <= 1)%nat -> (openCount (run tr cs) <= 1)%nat.
Proof.
  revert cs. induction tr as [ | [w ev] tr IH]; intros cs H; cbn [run]; [exact H | ].
  apply IH, dispatch_at_most_one, H.
Qed.

(** Opening a closed card on a touch or small screen. *)
Lemma toggleCard_opens (w : window) (a b : nat) (cs : cards) :
  isTouchOrSmall w = true ->
  (b < length cs)%nat -> a <> b ->
  isOpen (nth b cs []) = false ->
  isOpen (nth a (toggleCard w b false cs) []) = false
  /\ isOpen (nth b (toggleCard w b false cs) []) = true.
Proof.
  intros Hw Hb Hab Hclosed. unfold toggleCard. rewrite Hw. cbn [negb].
  unfold isOpen in Hclosed. rewrite Hclosed. cbn [negb]. split.
  - rewrite nth_update_other by exact Hab. rewrite nth_closeAll. apply isOpen_remove.
  - rewrite nth_update_same by (rewrite length_closeAll; exact Hb). apply isOpen_add.
Qed.

Lemma dispatch_toggles (w : window) (b : nat) (ev : interaction) (cs : cards) :
  isTouchOrSmall w = true -> toggles b ev ->
  dispatch w ev cs = toggleCard w b false cs.
Proof.
  intros Hw [-> | [-> | ->]]; cbn [dispatch].
  - unfold documentClick. rewrite Hw. reflexivity.
  - unfold cardKeydown. rewrite Hw. reflexivity.
  - unfold cardKeydown. rewrite Hw. reflexivity.
Qed.

(** C3: from the all-closed state, after any sequence of clicks on cards,
    keydowns on cards and clicks outside, at most one card carries the
    class [open]. On a touch or small screen, toggling card [b] while
    another card [a] is open leaves [a] closed and [b] open, and a click
    outside all cards then leaves every card closed. *)
Theorem at_most_one_card_open (cs : cards) (tr : list (window * interaction)) :
  allClosed cs ->
  (openCount (run tr cs) <= 1)%nat
  /\ forall (w w' : window) (a b : nat) (ev : interaction),
      isTouchOrSmall w = true -> isTouchOrSmall w' = true ->
      (b < length (run tr cs))%nat -> a <> b ->
      isOpen (nth a (run tr cs) []) = true ->
      toggles b ev ->
      let cs1 := dispatch w ev (run tr cs) in
      isOpen (nth a cs1 []) = false
      /\ isOpen (nth b cs1 []) = true
      /\ openCount cs1 = 1%nat
      /\ allClosed (dispatch w' ClickOutside cs1).
Proof.
  intros H0.
  assert (Hinv : (openCount (run tr cs) <= 1)%nat)
    by (apply run_at_most_one; rewrite (openCount_allClosed cs H0); lia).
  split; [exact Hinv | ].
  intros w w' a b ev Hw Hw' Hb Hab Ha Hev. cbv zeta.
  rewrite (dispatch_toggles w b ev _ Hw Hev).
  set (cur := run tr cs) in *.
  assert (Hbclosed : isOpen (nth b cur []) = false).
  { destruct (isOpen (nth b cur [])) eqn:Eb; [exfalso | reflexivity].
    apply (openCount_two cur a b); assumption. }
  destruct (toggleCard_opens w a b cur Hw Hb Hab Hbclosed) as [Hca Hob].
  repeat split; try assumption.
  - pose proof (toggleCard_at_most_one w b false cur Hinv) as Hle.
    pose proof (openCount_pos (toggleCard w b false cur) b Hob). lia.
  - unfold dispatch, documentClick. rewrite Hw'. cbn [negb]. apply allClosed_closeAll.
Qed.

(** C9: on a window without touch support and wider than 480px, a click on
    a card, a keydown on a card and a click anywhere in the document leave
    the class list of every card as it was. *)
Theorem inert_on_wide_non_touch (w : window) (cs : cards) :
  ontouchstart w = false ->
  480 < viewportWidth w ->
  (forall ev : interaction, dispatch w ev cs = cs)
  /\ (forall (i : nat) (l : bool), toggleCard w i l cs = cs)
  /\ (forall (i : nat) (k : jsstring) (l : bool), cardKeydown w i k l cs = (cs, false))
  /\ (forall b : bool, documentClick w b cs = cs)
  /\ forall tr : list interaction, run (map (fun ev => (w, ev)) tr) cs = cs.
Proof.
  intros Ht Hv.
  assert (Hw : isTouchOrSmall w = false).
  { unfold isTouchOrSmall, matchMedia_max_width_480. rewrite Ht. cbn [orb].
    apply Z.leb_gt. exact Hv. }
  assert (Htog : forall i l, toggleCard w i l cs = cs)
    by (intros; unfold toggleCard; rewrite Hw; reflexivity).
  assert (Hkey : forall i k l, cardKeydown w i k l cs = (cs, false))
    by (intros; unfold cardKeydown; rewrite Hw, andb_false_r; reflexivity).
  assert (Hdoc : forall b, documentClick w b cs = cs)
    by (intros; unfold documentClick; rewrite Hw; reflexivity).
  assert (Hdis : forall ev, dispatch w ev cs = cs).
  { intros [i l | i k l | ]; cbn [dispatch].
    - rewrite Htog. apply Hdoc.
    - rewrite Hkey. reflexivity.
    - apply Hdoc. }
  repeat split; try assumption.
  intros tr. induction tr as [ | ev tr IH]; cbn [map run]; [reflexivity | ].
  rewrite Hdis. exact IH.
Qed.

End CardFacts.

(** ** Binary64 arithmetic: signs, exact products and rounding to nearest *)

Module Exact.

Import Binary64.

(** The sign given to [binary_round_aux] only decides the sign of its
    result. *)
Lemma binary_round_aux_negb (sx : bool) (m e : Z) (l : location) :
  binary_round_aux prec emax (negb sx) m e l
  = SFopp (binary_round_aux prec emax sx m e l).
Proof.
  unfold binary_round_aux.
  destruct (shr_fexp prec emax m e l) as [mrs' e'].
  destruct (shr_fexp prec emax _ e' loc_Exact) as [mrs'' e''].
  destruct (shr_m mrs''); [reflexivity | | reflexivity].
  destruct (e'' <=? emax - prec); reflexivity.
Qed.

Lemma num_mul_neg_l (x y : number) :
  num_mul (num_neg x) y = num_neg (num_mul x y).
Proof.
  unfold num_mul, num_neg.
  destruct x as [sx | sx | | sx mx ex]; destruct y as [sy | sy | | sy my ey];
    cbn [SFmul SFopp]; rewrite <- ?negb_xorb_l; try reflexivity.
  apply binary_round_aux_negb.
Qed.

Lemma num_abs_neg (x : number) : num_abs (num_neg x) = num_abs x.
Proof. destruct x; reflexivity. Qed.

Lemma num_of_Z_opp (z : Z) :
  z <> 0 -> num_of_Z (- z) = num_neg (num_of_Z z).
Proof.
  intros Hz. unfold num_of_Z, num_neg, binary_normalize, binary_round.
  destruct z as [ | p | p ]; [contradiction | | ]; cbn [Z.opp];
    destruct (shl_align p 0 _) as [mz ez].
  - apply (binary_round_aux_negb false).
  - rewrite (binary_round_aux_negb false).
    destruct (binary_round_aux prec emax false (Zpos mz) ez loc_Exact); cbn [SFopp];
      rewrite ?negb_involutive; reflexivity.
Qed.

Lemma shr_m_nonneg (mrs : shr_record) (e n : Z) :
  0 <= shr_m mrs -> 0 <= shr_m (fst (shr mrs e n)).
Proof.
  intros H. destruct n as [ | k | k ]; cbn [shr fst]; try exact H.
  destruct mrs as [m r s]. cbn [shr_m] in H.
  destruct (shr_iter m r s k H) as [Hm _]. rewrite Hm.
  apply Z.div_pos; [exact H | apply Z.pow_pos_nonneg; lia].
Qed.

(** Rounding a positive mantissa gives a zero, a finite number or an
    infinity of the sign asked for, never a NaN. *)
Lemma binary_round_aux_signbit (sx : bool) (P : positive) (e : Z) :
  signbit (binary_round_aux prec emax sx (Zpos P) e loc_Exact) = Some sx.
Proof.
  unfold binary_round_aux, shr_fexp.
  pose proof (shr_m_nonneg (shr_record_of_loc (Zpos P) loc_Exact) e
                (fexp prec emax (Zdigits2 (Zpos P) + e) - e)) as H1.
  destruct (shr _ e _) as [mrs' e']. cbn [fst] in H1.
  specialize (H1 ltac:(cbn; lia)).
  pose proof (round_nearest_even_spec mrs') as Hr. cbv zeta in Hr.
  set (m1 := round_nearest_even (shr_m mrs') (loc_of_shr_record mrs')) in *.
  assert (Hm1 : 0 <= m1) by lia.
  pose proof (shr_m_nonneg (shr_record_of_loc m1 loc_Exact) e'
                (fexp prec emax (Zdigits2 m1 + e') - e')) as H2.
  destruct (shr _ e' _) as [mrs'' e'']. cbn [fst] in H2.
  specialize (H2 ltac:(cbn; lia)).
  destruct (shr_m mrs'') as [ | m | m ]; [reflexivity | | lia].
  destruct (e'' <=? emax - prec); reflexivity.
Qed.

(** Multiplying by a positive finite number keeps the sign, and gives a NaN
    only from a NaN. *)
Lemma signbit_mul_pos (x : number) (my : positive) (ey : Z) :
  signbit (num_mul x (S754_finite false my ey)) = signbit x.
Proof.
  unfold num_mul. destruct x as [sx | sx | | sx mx ex]; cbn [SFmul signbit];
    rewrite ?xorb_false_r; try reflexivity.
  apply binary_round_aux_signbit.
Qed.

(** Two positive numbers with 53-digit mantissas and the same value are the
    same number. *)
Lemma normal_inj (m1 m2 : positive) (e1 e2 E : Z) :
  2 ^ 52 <= Zpos m1 < 2 ^ 53 ->
  2 ^ 52 <= Zpos m2 < 2 ^ 53 ->
  E <= e1 -> E <= e2 ->
  Zpos m1 * 2 ^ (e1 - E) = Zpos m2 * 2 ^ (e2 - E) ->
  m1 = m2 /\ e1 = e2.
Proof.
  intros H1 H2 He1 He2 Hv.
  pose proof (SFltb_normal m1 m2 e1 e2 E H1 H2 He1 He2) as L12.
  pose proof (SFltb_normal m2 m1 e2 e1 E H2 H1 He2 He1) as L21.
  rewrite Hv, Z.ltb_irrefl in L12. rewrite Hv, Z.ltb_irrefl in L21.
  unfold SFltb, SFcompare in L12, L21.
  destruct (Z.compare_spec e1 e2) as [Heq | Hlt | Hgt].
  - subst e2. split; [ | reflexivity].
    assert (Ha : 0 < 2 ^ (e1 - E)) by (apply Z.pow_pos_nonneg; lia).
    apply Z.mul_cancel_r in Hv; [ | lia]. congruence.
  - discriminate L12.
  - rewrite (Z.compare_antisym e1 e2) in L21.
    destruct (Z.compare_spec e1 e2); try lia. discriminate L21.
Qed.

(** The product of two 53-digit mantissas has 105 or 106 digits. *)
Lemma digits_product (ma mb : positive) :
  2 ^ 52 <= Zpos ma < 2 ^ 53 ->
  2 ^ 52 <= Zpos mb < 2 ^ 53 ->
  (Zpos (digits2_pos (ma * mb)) = 53 + 52 /\ Zpos (ma * mb) < 2 ^ 105)
  \/ (Zpos (digits2_pos (ma * mb)) = 53 + 53 /\ 2 ^ 105 <= Zpos (ma * mb)).
Proof.
  intros Ha Hb.
  change (2 ^ 52) with 4503599627370496 in *.
  change (2 ^ 53) with 9007199254740992 in *.
  assert (Hlo : 2 ^ 104 <= Zpos (ma * mb)).
  { rewrite Pos2Z.inj_mul. change (2 ^ 104) with (4503599627370496 * 4503599627370496).
    apply Z.mul_le_mono_nonneg; lia. }
  assert (Hhi : Zpos (ma * mb) < 2 ^ 106).
  { rewrite Pos2Z.inj_mul. change (2 ^ 106) with (9007199254740992 * 9007199254740992).
    apply Z.mul_lt_mono_nonneg; lia. }
  destruct (Z.lt_ge_cases (Zpos (ma * mb)) (2 ^ 105)) as [Hlt | Hge];
    [left | right]; (split; [apply digits2_pos_unique | assumption]).
  - change (2 ^ (53 + 52 - 1)) with (2 ^ 104). change (2 ^ (53 + 52)) with (2 ^ 105). lia.
  - change (2 ^ (53 + 53 - 1)) with (2 ^ 105). change (2 ^ (53 + 53)) with (2 ^ 106). lia.
Qed.

(** The product of two positive integers is exact when it is below 2^53. *)
Lemma num_mul_of_Z_pos (a b : Z) :
  0 < a -> 0 < b -> a * b < 2 ^ 53 ->
  num_mul (num_of_Z a) (num_of_Z b) = num_of_Z (a * b).
Proof.
  intros Ha Hb Hab.
  assert (H53 : 2 ^ 53 = 9007199254740992) by reflexivity.
  destruct (num_of_Z_pos a) as (ma & ea & Hra & Hea & Hva & Hba); [nia | ].
  destruct (num_of_Z_pos b) as (mb & eb & Hrb & Heb & Hvb & Hbb); [nia | ].
  destruct (num_of_Z_pos (a * b)) as (mc & ec & Hrc & Hec & Hvc & Hbc); [nia | ].
  rewrite Hra, Hrb, Hrc. unfold num_mul. cbn [SFmul xorb].
  remember (- ea + - eb - - ec) as s eqn:Es.
  assert (HP : Zpos (ma * mb) = a * b * 2 ^ (- ea + - eb)).
  { rewrite Pos2Z.inj_mul, Hva, Hvb, Z.pow_add_r by lia. ring. }
  assert (Hpc : 0 < 2 ^ (- ec)) by (apply Z.pow_pos_nonneg; lia).
  assert (Hs : 52 <= s).
  { destruct (Z.le_gt_cases 52 s) as [ | Hlt]; [assumption | exfalso].
    assert (Hle : 2 ^ (- ea + - eb) <= 2 ^ (- ec) * 2 ^ 51)
      by (rewrite <- Z.pow_add_r by lia; apply Z.pow_le_mono_r; lia).
    assert (Hlo : 2 ^ 104 <= Zpos (ma * mb)).
    { rewrite Pos2Z.inj_mul. change (2 ^ 104) with (2 ^ 52 * 2 ^ 52).
      apply Z.mul_le_mono_nonneg; lia. }
    assert (Hup : Zpos (ma * mb) <= Zpos mc * 2 ^ 51).
    { rewrite HP, Hvc, <- !Z.mul_assoc.
      apply Z.mul_le_mono_nonneg_l; [lia | ].
      apply Z.mul_le_mono_nonneg_l; [lia | exact Hle]. }
    change (2 ^ 104) with (9007199254740992 * 2251799813685248) in Hlo.
    change (2 ^ 51) with 2251799813685248 in Hup. lia. }
  assert (HPc : Zpos (ma * mb) = Zpos mc * 2 ^ s).
  { rewrite HP, Hvc. replace (- ea + - eb) with (- ec + s) by lia.
    rewrite Z.pow_add_r by lia. ring. }
  assert (Hps : 0 < 2 ^ s) by (apply Z.pow_pos_nonneg; lia).
  assert (Hk : Zpos (Z.to_pos s) = s) by (apply Z2Pos.id; lia).
  destruct (binary_round_aux_shift false (ma * mb) (ea + eb) (Z.to_pos s))
    as (m1 & mR & eR & Hres & Hm1 & HbR & HeR & HvR).
  { apply digits2_pos_unique. rewrite Hk, HPc.
    replace (53 + s - 1) with (52 + s) by lia. rewrite !Z.pow_add_r by lia.
    split; [apply Z.mul_le_mono_nonneg_r | apply Z.mul_lt_mono_pos_r]; lia. }
  { rewrite Hk. lia. }
  { rewrite Hk. lia. }
  rewrite Hres. rewrite Hk in *.
  assert (Hq : m1 = Zpos mc).
  { rewrite HPc, Z.div_mul, Z.mod_mul in Hm1 by lia.
    destruct Hm1 as [-> | [_ Hhalf]]; [reflexivity | exfalso].
    assert (0 < 2 ^ (s - 1)) by (apply Z.pow_pos_nonneg; lia). lia. }
  destruct (normal_inj mR mc eR ec (ea + eb) HbR Hbc HeR) as [-> ->].
  - lia.
  - rewrite HvR, Hq. f_equal. f_equal. lia.
  - reflexivity.
Qed.

Lemma mod_pow2_zero (a : Z) (k : positive) :
  (a mod 2 ^ Zpos k =? 0)
  = negb (Z.testbit a (Zpos k - 1)) && (a mod 2 ^ (Zpos k - 1) =? 0).
Proof.
  assert (Hp : 0 < 2 ^ (Zpos k - 1)) by (apply Z.pow_pos_nonneg; lia).
  replace (Zpos k) with (Z.succ (Zpos k - 1)) at 1 by lia.
  rewrite Z.pow_succ_r by lia. rewrite (Z.mul_comm 2), Z.rem_mul_r by lia.
  pose proof (Z.mod_pos_bound a (2 ^ (Zpos k - 1)) Hp) as Hlo.
  destruct (Z.testbit a (Zpos k - 1)) eqn:Hb; cbn [negb andb].
  - apply Z.testbit_true in Hb; [ | lia]. rewrite Hb. apply Z.eqb_neq. lia.
  - apply Z.testbit_false in Hb; [ | lia]. rewrite Hb.
    rewrite Z.mul_0_r, Z.add_0_r. reflexivity.
Qed.

(** The sticky bit after [k] shifts tells whether a one was shifted out
    below the round bit. *)
Lemma shr_iter_sticky (m : Z) (r s : bool) (k : positive) :
  0 <= m ->
  shr_s (iter_pos shr_1 k (Build_shr_record m r s))
  = r || s || negb (m mod 2 ^ (Zpos k - 1) =? 0).
Proof.
  intros Hm. rewrite iter_pos_iter.
  enough (H : shr_m (Pos.iter shr_1 (Build_shr_record m r s) k) = m / 2 ^ Zpos k
              /\ shr_r (Pos.iter shr_1 (Build_shr_record m r s) k) = Z.testbit m (Zpos k - 1)
              /\ shr_s (Pos.iter shr_1 (Build_shr_record m r s) k)
                 = r || s || negb (m mod 2 ^ (Zpos k - 1) =? 0)) by apply H.
  apply (Pos.iter_ind _ shr_1 (Build_shr_record m r s)
           (fun k mrs => shr_m mrs = m / 2 ^ Zpos k
                         /\ shr_r mrs = Z.testbit m (Zpos k - 1)
                         /\ shr_s mrs = r || s || negb (m mod 2 ^ (Zpos k - 1) =? 0))).
  - rewrite shr_1_nonneg by assumption. cbn [shr_m shr_r shr_s].
    split; [reflexivity | split; [symmetry; apply Z.bit0_odd | ]].
    change (2 ^ (1 - 1)) with 1. rewrite Z.mod_1_r. cbn. rewrite orb_false_r. reflexivity.
  - intros p [m' r' s'] (Hm' & Hr' & Hs'). cbn [shr_m shr_r shr_s] in Hm', Hr', Hs'.
    subst m' r' s'.
    rewrite shr_1_nonneg by (apply Z.div_pos; [assumption | apply Z.pow_pos_nonneg; lia]).
    cbn [shr_m shr_r shr_s]. rewrite Pos2Z.inj_succ.
    replace (Z.succ (Zpos p) - 1) with (Zpos p) by lia.
    split; [ | split].
    + rewrite Z.pow_succ_r by lia. rewrite Z.div_div by (try apply Z.pow_pos_nonneg; lia).
      f_equal. lia.
    + rewrite Z.testbit_odd, Z.shiftr_div_pow2 by lia. reflexivity.
    + rewrite (mod_pow2_zero m p).
      destruct (Z.testbit m (Zpos p - 1)), r, s,
        (m mod 2 ^ (Zpos p - 1) =? 0); reflexivity.
Qed.

Lemma shr_fexp_shift_eq (P : positive) (E : Z) (k : positive) :
  fexp prec emax (Zpos (digits2_pos P) + E) = E + Zpos k ->
  shr_fexp prec emax (Zpos P) E loc_Exact
  = (iter_pos shr_1 k (Build_shr_record (Zpos P) false false), E + Zpos k).
Proof.
  intros H. unfold shr_fexp. cbn [Zdigits2]. rewrite H.
  replace (E + Zpos k - E) with (Zpos k) by lia. reflexivity.
Qed.

Lemma round_shifted_nearest (P k : positive) :
  let mrs := iter_pos shr_1 k (Build_shr_record (Zpos P) false false) in
  nearest_even (Zpos P) k (round_nearest_even (shr_m mrs) (loc_of_shr_record mrs)).
Proof.
  cbv zeta.
  destruct (shr_iter (Zpos P) false false k ltac:(lia)) as [Hm Hr].
  pose proof (shr_iter_sticky (Zpos P) false false k ltac:(lia)) as Hs.
  destruct (iter_pos shr_1 k _) as [m r s]. cbn [shr_m shr_r shr_s orb] in Hm, Hr, Hs.
  assert (Hp : 0 < 2 ^ (Zpos k - 1)) by (apply Z.pow_pos_nonneg; lia).
  assert (H2k : 2 ^ Zpos k = 2 ^ (Zpos k - 1) * 2).
  { replace (Zpos k) with (Z.succ (Zpos k - 1)) at 1 by lia.
    rewrite Z.pow_succ_r by lia. ring. }
  pose proof (Z.mod_pos_bound (Zpos P) (2 ^ (Zpos k - 1)) Hp) as Hlo.
  assert (Hrem : Zpos P mod 2 ^ Zpos k
                 = Zpos P mod 2 ^ (Zpos k - 1)
                   + 2 ^ (Zpos k - 1) * ((Zpos P / 2 ^ (Zpos k - 1)) mod 2))
    by (rewrite H2k at 1; apply Z.rem_mul_r; lia).
  unfold nearest_even. rewrite <- Hm, Hrem, H2k.
  set (lo := Zpos P mod 2 ^ (Zpos k - 1)) in *.
  set (H := 2 ^ (Zpos k - 1)) in *.
  symmetry in Hr. destruct r.
  - apply Z.testbit_true in Hr; [ | lia]. fold H in Hr. rewrite Hr.
    destruct s; cbn [loc_of_shr_record round_nearest_even shr_m].
    + symmetry in Hs. apply negb_true_iff, Z.eqb_neq in Hs. repeat split; intros; lia.
    + symmetry in Hs. apply negb_false_iff, Z.eqb_eq in Hs. repeat split; intros; lia.
  - apply Z.testbit_false in Hr; [ | lia]. fold H in Hr. rewrite Hr.
    destruct s; cbn [loc_of_shr_record round_nearest_even shr_m]; repeat split; intros; lia.
Qed.

(** Rounding a product mantissa of [53 + k] digits, in full: the result has
    53 digits and its value is [m1 * 2 ^ (E + k)], with [m1] the nearest
    integer to [P / 2 ^ k], ties to even. *)
Lemma binary_round_aux_nearest (sx : bool) (P : positive) (E : Z) (k : positive) :
  Zpos (digits2_pos P) = 53 + Zpos k ->
  -1074 <= E + Zpos k ->
  E + Zpos k + 1 <= 971 ->
  exists (m1 : Z) (mR : positive) (eR : Z),
    binary_round_aux prec emax sx (Zpos P) E loc_Exact = S754_finite sx mR eR
    /\ nearest_even (Zpos P) k m1
    /\ 2 ^ 52 <= Zpos mR < 2 ^ 53
    /\ E <= eR
    /\ Zpos mR * 2 ^ (eR - E) = m1 * 2 ^ Zpos k.
Proof.
  intros Hd Hlo Hhi.
  pose proof (shr_fexp_shift_eq P E k) as Hs.
  rewrite fexp_eq, Hd in Hs. specialize (Hs ltac:(lia)).
  pose proof (round_shifted_nearest P k) as Hne. cbv zeta in Hne.
  pose proof (round_nearest_even_spec (iter_pos shr_1 k (Build_shr_record (Zpos P) false false)))
    as Hrne. cbv zeta in Hrne.
  destruct (shr_iter (Zpos P) false false k ltac:(lia)) as [Hm _].
  unfold binary_round_aux. rewrite Hs.
  set (m1 := round_nearest_even _ _) in *.
  rewrite Hm in Hrne.
  pose proof (digits2_pos_bounds P) as HP. rewrite Hd in HP.
  assert (HK : 0 < 2 ^ Zpos k) by (apply Z.pow_pos_nonneg; lia).
  replace (53 + Zpos k - 1) with (52 + Zpos k) in HP by lia.
  rewrite !Z.pow_add_r in HP by lia.
  assert (Hq : 2 ^ 52 <= Zpos P / 2 ^ Zpos k < 2 ^ 53).
  { split.
    - apply Z.div_le_lower_bound; lia.
    - apply Z.div_lt_upper_bound; lia. }
  assert (Hb : 2 ^ 52 <= m1 <= 2 ^ 53) by lia.
  destruct (Z.eq_dec m1 (2 ^ 53)) as [Htop | Hlt].
  - exists m1, 4503599627370496%positive, (E + Zpos k + 1).
    split; [ | split; [exact Hne | ]].
    + rewrite Htop. change (2 ^ 53) with (Zpos 9007199254740992).
      destruct (shr_fexp_shift 9007199254740992 (E + Zpos k) 1) as (mrs' & Hs' & Hm' & _).
      { rewrite fexp_eq. change (Zpos (digits2_pos 9007199254740992)) with 54. lia. }
      rewrite Hs', Hm'.
      change (Zpos 9007199254740992 / 2 ^ 1) with (Zpos 4503599627370496).
      cbv iota beta.
      replace (E + Zpos k + 1 <=? emax - prec) with true
        by (symmetry; apply Z.leb_le; unfold emax, prec; lia).
      reflexivity.
    + split; [split; [discriminate | reflexivity] | ].
      split; [lia | ].
      rewrite Htop. replace (E + Zpos k + 1 - E) with (Z.succ (Zpos k)) by lia.
      rewrite Z.pow_succ_r by lia.
      change (2 ^ 53) with 9007199254740992. lia.
  - destruct m1 as [ | p1 | p1 ] eqn:E1; try lia.
    exists (Zpos p1), p1, (E + Zpos k).
    assert (Hc : canonical_mantissa prec emax p1 (E + Zpos k) = true)
      by (apply canonical_normal; lia).
    rewrite (shr_fexp_id p1 _ Hc). cbn [shr_m].
    replace (E + Zpos k <=? emax - prec) with true
      by (symmetry; apply Z.leb_le; unfold emax, prec; lia).
    split; [reflexivity | ]. split; [exact Hne | ].
    split; [lia | ]. split; [lia | ].
    replace (E + Zpos k - E) with (Zpos k) by lia. reflexivity.
Qed.

Lemma scaled_target (c j en ec mp : Z) :
  en <= 0 -> mp <= ec <= 0 ->
  c * j * 2 ^ (- ec) * 2 ^ (ec - (en + mp)) = c * (j * 2 ^ (- en)) * 2 ^ (- mp).
Proof.
  intros Hen Hec.
  assert (H : 2 ^ (- ec) * 2 ^ (ec - (en + mp)) = 2 ^ (- en) * 2 ^ (- mp))
    by (rewrite <- !Z.pow_add_r by lia; f_equal; lia).
  rewrite <- !Z.mul_assoc. rewrite H. ring.
Qed.

(** Four fifths of a multiple of five: [5 j * 0.8 = 4 j], exactly. *)
Lemma num_mul_4_5 (j : Z) :
  0 < j -> 5 * j < 2 ^ 53 ->
  num_mul (num_of_Z (5 * j)) lit_0_8 = num_of_Z (4 * j).
Proof.
  intros Hj Hlt.
  assert (H53 : 2 ^ 53 = 9007199254740992) by reflexivity.
  destruct (num_of_Z_pos (5 * j)) as (mn & en & Hrn & Hen & Hvn & Hbn); [lia | ].
  destruct (num_of_Z_pos (4 * j)) as (mc & ec & Hrc & Hec & Hvc & Hbc); [lia | ].
  rewrite Hrn, Hrc. unfold num_mul, lit_0_8. cbn [SFmul xorb].
  assert (HbM : 2 ^ 52 <= Zpos 7205759403792794 < 2 ^ 53)
    by (split; [discriminate | reflexivity]).
  assert (HJ : 0 < 2 ^ (- en)) by (apply Z.pow_pos_nonneg; lia).
  replace (5 * j * 2 ^ (- en)) with (5 * (j * 2 ^ (- en))) in Hvn by ring.
  assert (Hu : 0 < j * 2 ^ (- en)) by (apply Z.mul_pos_pos; lia).
  set (u := j * 2 ^ (- en)) in *.
  destruct (digits_product mn 7205759403792794 Hbn HbM) as [[Hd HP] | [Hd HP]];
    (destruct (binary_round_aux_shift false (mn * 7205759403792794) (en + -53) _ Hd)
      as (m1 & mR & eR & Hres & Hm1 & HbR & HeR & HvR); [lia | lia | ]);
    rewrite Hres; clear Hres.
  all: destruct (normal_inj mR mc eR ec (en + -53) HbR Hbc HeR) as [-> ->];
    [ lia | | reflexivity ].
  all: rewrite HvR, Hvc, (scaled_target 4 j en ec (-53)) by lia; fold u.
  all: rewrite Pos2Z.inj_mul, Hvn in Hm1, HP.
  all: change (2 ^ (- -53)) with 9007199254740992 in *;
       change (2 ^ (- -52)) with 4503599627370496 in *;
       change (2 ^ 52) with 4503599627370496 in *;
       change (2 ^ 53) with 9007199254740992 in *;
       change (2 ^ 105) with 40564819207303340847894502572032 in *;
       change (2 ^ (52 - 1)) with 2251799813685248 in *;
       change (2 ^ (53 - 1)) with 4503599627370496 in *.
  - pose proof (Z.div_mod (5 * u * 7205759403792794) 4503599627370496 ltac:(lia)) as Hdiv.
    pose proof (Z.mod_pos_bound (5 * u * 7205759403792794) 4503599627370496 ltac:(lia)) as Hmod.
    lia.
  - pose proof (Z.div_mod (5 * u * 7205759403792794) 9007199254740992 ltac:(lia)) as Hdiv.
    pose proof (Z.mod_pos_bound (5 * u * 7205759403792794) 9007199254740992 ltac:(lia)) as Hmod.
    lia.
Qed.

(** Six fifths of a multiple of five: [5 j * 1.2 = 6 j], exactly; the
    product lies just below [6 j] and is rounded up to it. *)
Lemma num_mul_6_5 (j : Z) :
  0 < j -> 6 * j < 2 ^ 53 ->
  num_mul (num_of_Z (5 * j)) lit_1_2 = num_of_Z (6 * j).
Proof.
  intros Hj Hlt.
  assert (H53 : 2 ^ 53 = 9007199254740992) by reflexivity.
  destruct (num_of_Z_pos (5 * j)) as (mn & en & Hrn & Hen & Hvn & Hbn); [lia | ].
  destruct (num_of_Z_pos (6 * j)) as (mc & ec & Hrc & Hec & Hvc & Hbc); [lia | ].
  rewrite Hrn, Hrc. unfold num_mul, lit_1_2. cbn [SFmul xorb].
  assert (HbM : 2 ^ 52 <= Zpos 5404319552844595 < 2 ^ 53)
    by (split; [discriminate | reflexivity]).
  assert (HJ : 0 < 2 ^ (- en)) by (apply Z.pow_pos_nonneg; lia).
  replace (5 * j * 2 ^ (- en)) with (5 * (j * 2 ^ (- en))) in Hvn by ring.
  assert (Hu : 0 < j * 2 ^ (- en)) by (apply Z.mul_pos_pos; lia).
  set (u := j * 2 ^ (- en)) in *.
  destruct (digits_product mn 5404319552844595 Hbn HbM) as [[Hd HP] | [Hd HP]];
    (destruct (binary_round_aux_nearest false (mn * 5404319552844595) (en + -52) _ Hd)
      as (m1 & mR & eR & Hres & (_ & Hup & _) & HbR & HeR & HvR); [lia | lia | ]);
    rewrite Hres; clear Hres.
  all: destruct (normal_inj mR mc eR ec (en + -52) HbR Hbc HeR) as [-> ->];
    [ lia | | reflexivity ].
  all: rewrite HvR, Hvc, (scaled_target 6 j en ec (-52)) by lia; fold u.
  all: rewrite Pos2Z.inj_mul, Hvn in Hup, HP.
  all: change (2 ^ (- -53)) with 9007199254740992 in *;
       change (2 ^ (- -52)) with 4503599627370496 in *;
       change (2 ^ 52) with 4503599627370496 in *;
       change (2 ^ 53) with 9007199254740992 in *;
       change (2 ^ 105) with 40564819207303340847894502572032 in *.
  - pose proof (Z.div_mod (5 * u * 5404319552844595) 4503599627370496 ltac:(lia)) as Hdiv.
    pose proof (Z.mod_pos_bound (5 * u * 5404319552844595) 4503599627370496 ltac:(lia)) as Hmod.
    lia.
  - pose proof (Z.div_mod (5 * u * 5404319552844595) 9007199254740992 ltac:(lia)) as Hdiv.
    pose proof (Z.mod_pos_bound (5 * u * 5404319552844595) 9007199254740992 ltac:(lia)) as Hmod.
    lia.
Qed.

(** Signed versions. *)
Lemma num_mul_of_Z (a b : Z) :
  a <> 0 -> 0 < b -> Z.abs a * b < 2 ^ 53 ->
  num_mul (num_of_Z a) (num_of_Z b) = num_of_Z (a * b).
Proof.
  intros Ha Hb Hab. destruct (Z.lt_ge_cases 0 a) as [Hpos | Hneg].
  - apply num_mul_of_Z_pos; lia.
  - replace a with (- (- a)) by lia.
    rewrite (num_of_Z_opp (- a)) by lia. rewrite num_mul_neg_l.
    rewrite num_mul_of_Z_pos by lia.
    rewrite <- num_of_Z_opp by nia. f_equal. ring.
Qed.

Lemma num_mul_6_5_signed (j : Z) :
  j <> 0 -> 6 * Z.abs j < 2 ^ 53 ->
  num_mul (num_of_Z (5 * j)) lit_1_2 = num_of_Z (6 * j).
Proof.
  intros Hj Hlt. destruct (Z.lt_ge_cases 0 j) as [Hpos | Hneg].
  - apply num_mul_6_5; lia.
  - replace (5 * j) with (- (5 * - j)) by lia.
    rewrite (num_of_Z_opp (5 * - j)) by lia. rewrite num_mul_neg_l.
    rewrite num_mul_6_5 by lia.
    rewrite <- num_of_Z_opp by lia. f_equal. ring.
Qed.

(** A number of non-negative sign is not below zero. *)
Lemma not_lt_zero (r : number) :
  signbit r = Some false -> num_lt r (num_of_Z 0) = false.
Proof. destruct r as [s | s | | s m e]; cbn; intros H; congruence || (injection H as ->; reflexivity). Qed.

Lemma signbit_num_of_Z (n : Z) : 0 <= n -> signbit (num_of_Z n) = Some false.
Proof.
  intros Hn. destruct n as [ | p | p ]; [reflexivity | | lia].
  unfold num_of_Z, binary_normalize, binary_round.
  destruct (shl_align p 0 _) as [mz ez]. apply binary_round_aux_signbit.
Qed.

End Exact.

(** ** More on the wheel and keyboard listeners *)

Section ScrollMore.

Import Timeline.

Lemma normalizeDeltaY_flipY (e : wheel_event) :
  normalizeDeltaY (flipY e) = num_neg (normalizeDeltaY e).
Proof.
  unfold normalizeDeltaY, flipY. cbn [deltaY deltaMode].
  destruct (deltaMode e =? 1); [apply Exact.num_mul_neg_l | ].
  destruct (deltaMode e =? 2); [apply Exact.num_mul_neg_l | reflexivity].
Qed.

(** X1: the wheel listener is symmetric. Negating [deltaY] keeps the
    decision and negates the requested offset; negating [deltaX] changes
    nothing. *)
Theorem wheel_mirror (t : timeline_el) (e : wheel_event) :
  onWheel t (flipY e) = map mirror (onWheel t e)
  /\ onWheel t (flipX e) = onWheel t e.
Proof.
  unfold onWheel. split.
  - rewrite normalizeDeltaY_flipY.
    unfold flipY at 1 2. cbn [deltaX deltaY]. rewrite Exact.num_abs_neg.
    destruct (negb (canScrollHorizontally t)); [reflexivity | ].
    destruct (num_gt (num_abs (deltaY e)) (num_abs (deltaX e))); [ | reflexivity].
    cbn [map mirror]. rewrite Exact.num_mul_neg_l. reflexivity.
  - unfold flipX at 1 2. cbn [deltaX deltaY]. rewrite Exact.num_abs_neg.
    reflexivity.
Qed.

Lemma signbit_normalizeDeltaY (e : wheel_event) :
  signbit (normalizeDeltaY e) = signbit (deltaY e).
Proof.
  unfold normalizeDeltaY.
  destruct (deltaMode e =? 1); [apply Exact.signbit_mul_pos | ].
  destruct (deltaMode e =? 2); [apply Exact.signbit_mul_pos | reflexivity].
Qed.

Lemma num_gt_abs_not_nan (x y : number) :
  num_gt (num_abs x) (num_abs y) = true -> signbit x <> None.
Proof.
  destruct x as [s | s | | s m e]; cbn [signbit]; try discriminate.
  destruct y; cbn; discriminate.
Qed.

(** X2: a transformed wheel event scrolls the way the wheel turned: the
    requested offset has the sign of [deltaY] and is not NaN, in every
    delta mode. *)
Theorem wheel_keeps_direction (t : timeline_el) (e : wheel_event)
        (left : number) (b : behavior) :
  In (ScrollBy left b) (onWheel t e) ->
  signbit left = signbit (deltaY e) /\ signbit left <> None.
Proof.
  intros Hin.
  destruct (onWheel_cases t e) as [(_ & Hv & Heq) | (_ & Heq)]; rewrite Heq in Hin.
  - destruct Hin as [Hin | [Hin | []]]; [discriminate Hin | ].
    injection Hin as <- _.
    assert (Hs : signbit (num_mul (normalizeDeltaY e) speed) = signbit (deltaY e)).
    { unfold speed, lit_1_2. rewrite Exact.signbit_mul_pos.
      apply signbit_normalizeDeltaY. }
    split; [exact Hs | ]. rewrite Hs. exact (num_gt_abs_not_nan _ _ Hv).
  - destruct Hin.
Qed.

(** X3: for a transformed wheel event whose [deltaY] is an integer
    multiple of five (100 or -125 pixels, 5 lines), the requested offset is
    exactly six fifths of the normalised delta, an integer: the binary64
    products leave no rounding error. *)
Theorem wheel_offset_exact (t : timeline_el) (e : wheel_event) (z : Z) :
  deltaY e = num_of_Z (5 * z) ->
  z <> 0 -> Z.abs z < 2 ^ 40 ->
  onWheel t e <> [] ->
  onWheel t e
  = [PreventDefault;
     ScrollBy (num_of_Z (6 * (z * (if deltaMode e =? 1 then 16
                                   else if deltaMode e =? 2 then 800 else 1)))) Auto].
Proof.
  intros Hdy Hz Hb Hne.
  change (2 ^ 40) with 1099511627776 in Hb.
  assert (H53 : 2 ^ 53 = 9007199254740992) by reflexivity.
  destruct (onWheel_cases t e) as [(_ & _ & Heq) | (_ & Heq)]; [ | contradiction].
  rewrite Heq. do 2 f_equal. f_equal.
  unfold normalizeDeltaY, speed. rewrite Hdy.
  destruct (deltaMode e =? 1).
  - rewrite Exact.num_mul_of_Z by lia.
    replace (5 * z * 16) with (5 * (z * 16)) by ring.
    apply Exact.num_mul_6_5_signed; lia.
  - destruct (deltaMode e =? 2).
    + rewrite Exact.num_mul_of_Z by lia.
      replace (5 * z * 800) with (5 * (z * 800)) by ring.
      apply Exact.num_mul_6_5_signed; lia.
    + rewrite Z.mul_1_r. apply Exact.num_mul_6_5_signed; lia.
Qed.

(** X4: when [clientWidth] is a multiple of five, PageDown and PageUp move
    by exactly four fifths of it: the binary64 product [clientWidth * 0.8]
    is the integer [4 * clientWidth / 5]. *)
Theorem page_step_exact (t : timeline_el) (j : Z) :
  clientWidth t = 5 * j ->
  0 <= j -> 5 * j < 2 ^ 53 ->
  onKeydown t (js "PageDown"%string)
  = [PreventDefault; ScrollBy (num_of_Z (4 * j)) Smooth]
  /\ onKeydown t (js "PageUp"%string)
     = [PreventDefault; ScrollBy (num_neg (num_of_Z (4 * j))) Smooth].
Proof.
  intros Hw Hj Hlt.
  assert (Hbig : num_mul (num_of_Z (clientWidth t)) lit_0_8 = num_of_Z (4 * j)).
  { rewrite Hw. destruct (Z.eq_dec j 0) as [-> | Hj0]; [reflexivity | ].
    apply Exact.num_mul_4_5; lia. }
  destruct (onKeydown_keys t) as (_ & _ & Hd & Hu).
  rewrite Hd, Hu, Hbig. split; reflexivity.
Qed.

End ScrollMore.

(** ** More on the milestone cards *)

Section CardMore.

Import Timeline.

Lemma remove_remove (c : classList) (tok : jsstring) :
  remove (remove c tok) tok = remove c tok.
Proof.
  unfold remove. induction c as [ | t c IH]; [reflexivity | ].
  cbn [filter]. destruct (negb (JSString.eqb tok t)) eqn:E; [ | exact IH].
  cbn [filter]. rewrite E, IH. reflexivity.
Qed.

Lemma remove_add (c : classList) (tok : jsstring) :
  remove (add c tok) tok = remove c tok.
Proof.
  unfold add. destruct (contains c tok); [reflexivity | ].
  unfold remove. rewrite filter_app. cbn [filter]. rewrite eqb_refl. cbn [negb].
  apply app_nil_r.
Qed.

Lemma closeAll_closeAll (cs : cards) : closeAll (closeAll cs) = closeAll cs.
Proof.
  unfold closeAll. rewrite map_map. apply map_ext. intros c. apply remove_remove.
Qed.

Lemma closeAll_update_add (i : nat) (cs : cards) :
  closeAll (update i (fun c => add c open) cs) = closeAll cs.
Proof.
  revert i. induction cs as [ | c cs IH]; intros i; [destruct i; reflexivity | ].
  destruct i as [ | i]; cbn [update closeAll map].
  - rewrite remove_add. reflexivity.
  - fold (closeAll (update i (fun c => add c open) cs)). rewrite IH. reflexivity.
Qed.

Lemma length_update (i : nat) (f : classList -> classList) (cs : cards) :
  length (update i f cs) = length cs.
Proof.
  revert i. induction cs as [ | c cs IH]; intros i; [destruct i; reflexivity | ].
  destruct i as [ | i]; cbn [update length]; [reflexivity | rewrite IH; reflexivity].
Qed.

Lemma toggleCard_frame (w : window) (i : nat) (l : bool) (cs : cards) :
  closeAll (toggleCard w i l cs) = closeAll cs
  /\ length (toggleCard w i l cs) = length cs.
Proof.
  unfold toggleCard.
  destruct (negb (isTouchOrSmall w)); [split; reflexivity | ].
  destruct l; [split; reflexivity | ].
  destruct (negb (contains (nth i cs []) open)).
  - rewrite closeAll_update_add, closeAll_closeAll, length_update, length_closeAll.
    split; reflexivity.
  - rewrite closeAll_closeAll, length_closeAll. split; reflexivity.
Qed.

Lemma documentClick_frame (w : window) (b : bool) (cs : cards) :
  closeAll (documentClick w b cs) = closeAll cs
  /\ length (documentClick w b cs) = length cs.
Proof.
  unfold documentClick.
  destruct (negb (isTouchOrSmall w)); [split; reflexivity | ].
  destruct (negb b); [ | split; reflexivity].
  rewrite closeAll_closeAll, length_closeAll. split; reflexivity.
Qed.

Lemma dispatch_frame (w : window) (ev : interaction) (cs : cards) :
  closeAll (dispatch w ev cs) = closeAll cs
  /\ length (dispatch w ev cs) = length cs.
Proof.
  destruct ev as [i l | i k l | ]; cbn [dispatch].
  - destruct (documentClick_frame w true (toggleCard w i l cs)) as [H1 H2].
    destruct (toggleCard_frame w i l cs) as [H3 H4].
    rewrite H1, H2, H3, H4. split; reflexivity.
  - unfold cardKeydown.
    destruct ((JSString.eqb k (js "Enter"%string) || JSString.eqb k (js " "%string))
              && isTouchOrSmall w); cbn [fst];
      [apply toggleCard_frame | split; reflexivity].
  - apply documentClick_frame.
Qed.

Lemma contains_remove_other (c : classList) (tok : jsstring) :
  tok <> open -> contains (remove c open) tok = contains c tok.
Proof.
  intros Hne. unfold contains, remove.
  induction c as [ | t c IH]; [reflexivity | ].
  cbn [filter existsb]. destruct (JSString.eqb open t) eqn:E; cbn [negb existsb].
  - apply eqb_eq in E. subst t.
    destruct (JSString.eqb tok open) eqn:E2; [apply eqb_eq in E2; contradiction | ].
    exact IH.
  - rewrite IH. reflexivity.
Qed.

(** X5: a session only ever adds or removes the class [open]: the number
    of cards, every class list with [open] taken out, and so the presence
    of every other class on every card, are the same after any sequence of
    interactions in any window. *)
Theorem cards_frame (tr : list (window * interaction)) (cs : cards) :
  closeAll (run tr cs) = closeAll cs
  /\ length (run tr cs) = length cs
  /\ forall (i : nat) (tok : jsstring),
      tok <> open -> contains (nth i (run tr cs) []) tok = contains (nth i cs []) tok.
Proof.
  assert (H : closeAll (run tr cs) = closeAll cs /\ length (run tr cs) = length cs).
  { revert cs. induction tr as [ | [w ev] tr IH]; intros cs; cbn [run];
      [split; reflexivity | ].
    destruct (IH (dispatch w ev cs)) as [H1 H2].
    destruct (dispatch_frame w ev cs) as [H3 H4].
    rewrite H1, H2, H3, H4. split; reflexivity. }
  destruct H as [H1 H2]. split; [exact H1 | split; [exact H2 | ]].
  intros i tok Hne.
  rewrite <- (contains_remove_other (nth i (run tr cs) []) tok Hne).
  rewrite <- (contains_remove_other (nth i cs []) tok Hne).
  rewrite <- !nth_closeAll, H1. reflexivity.
Qed.

(** X6: Enter and Space on a focused card do exactly what a click on it
    does, in every window and for every target. *)
Theorem keyboard_parity (w : window) (i : nat) (l : bool) (cs : cards) :
  dispatch w (KeydownCard i (js "Enter"%string) l) cs = dispatch w (ClickCard i l) cs
  /\ dispatch w (KeydownCard i (js " "%string) l) cs = dispatch w (ClickCard i l) cs.
Proof.
  assert (Hdoc : forall cs', documentClick w true cs' = cs').
  { intros cs'. unfold documentClick. destruct (negb (isTouchOrSmall w)); reflexivity. }
  cbn [dispatch]. rewrite Hdoc. unfold cardKeydown.
  change (JSString.eqb (js "Enter"%string) (js "Enter"%string)) with true.
  change (JSString.eqb (js " "%string) (js " "%string)) with true.
  change (JSString.eqb (js " "%string) (js "Enter"%string)) with false.
  cbn [orb andb].
  destruct (isTouchOrSmall w) eqn:Hw; cbn [fst]; [split; reflexivity | ].
  unfold toggleCard. rewrite Hw. split; reflexivity.
Qed.

(** X7: a click or a keydown whose target is inside a link or a button of
    a card never changes the cards; yet on a touch or small screen Enter
    and Space there still call [preventDefault]. *)
Theorem link_targets_never_toggle (w : window) (i : nat) (k : jsstring) (cs : cards) :
  dispatch w (ClickCard i true) cs = cs
  /\ dispatch w (KeydownCard i k true) cs = cs
  /\ (isTouchOrSmall w = true ->
      cardKeydown w i (js "Enter"%string) true cs = (cs, true)
      /\ cardKeydown w i (js " "%string) true cs = (cs, true)).
Proof.
  assert (Htog : toggleCard w i true cs = cs).
  { unfold toggleCard. destruct (negb (isTouchOrSmall w)); reflexivity. }
  split; [ | split].
  - cbn [dispatch]. rewrite Htog. unfold documentClick.
    destruct (negb (isTouchOrSmall w)); reflexivity.
  - cbn [dispatch]. unfold cardKeydown.
    destruct ((JSString.eqb k (js "Enter"%string) || JSString.eqb k (js " "%string))
              && isTouchOrSmall w); cbn [fst]; [exact Htog | reflexivity].
  - intros Hw. unfold cardKeydown. rewrite Hw, Htog. split; reflexivity.
Qed.

(** X8: on a touch or small screen, toggling the card that is open closes
    it and leaves every card closed; toggling a card twice gives it back
    the state it had. *)
Theorem toggle_open_card_closes (w : window) (b : nat) (ev : interaction) (cs : cards) :
  isTouchOrSmall w = true ->
  toggles b ev ->
  (b < length cs)%nat ->
  (isOpen (nth b cs []) = true -> allClosed (dispatch w ev cs))
  /\ isOpen (nth b (dispatch w ev (dispatch w ev cs)) []) = isOpen (nth b cs []).
Proof.
  intros Hw Hev Hb.
  rewrite !(dispatch_toggles w b ev _ Hw Hev).
  assert (Hopen : forall cs' : cards, isOpen (nth b cs' []) = true ->
                              toggleCard w b false cs' = closeAll cs').
  { intros cs' H. unfold toggleCard. rewrite Hw. cbn [negb]. unfold isOpen in H.
    rewrite H. reflexivity. }
  split.
  - intros H. rewrite (Hopen cs H). apply allClosed_closeAll.
  - destruct (isOpen (nth b cs [])) eqn:E.
    + rewrite (Hopen cs E).
      unfold toggleCard. rewrite Hw. cbn [negb].
      assert (Hc : contains (nth b (closeAll cs) []) open = false)
        by (rewrite nth_closeAll; apply isOpen_remove).
      rewrite Hc. cbn [negb].
      rewrite nth_update_same by (rewrite !length_closeAll; exact Hb).
      apply isOpen_add.
    + destruct (toggleCard_opens w (S b) b cs Hw Hb ltac:(lia) E) as [_ Ho].
      rewrite (Hopen _ Ho). rewrite nth_closeAll. apply isOpen_remove.
Qed.

End CardMore.

(** ** More on the direction resolver *)

Section DirectionMore.

Import Direction.

Variable toLowerCase : jsstring -> jsstring.

Lemma first_split_nosep (sep : Z) (p : jsstring) :
  ~ In sep p -> first (split sep p) = p.
Proof.
  unfold first. induction p as [ | c p IH]; intros Hn; [reflexivity | ].
  cbn [split]. destruct (Z.eqb_spec c sep) as [-> | Hc].
  - exfalso. apply Hn. left. reflexivity.
  - assert (Hp : ~ In sep p) by (intros H; apply Hn; right; exact H).
    specialize (IH Hp). destruct (split sep p) as [ | q qs]; cbn [hd] in *; congruence.
Qed.

Lemma first_split_prefix (sep : Z) (p rest : jsstring) :
  ~ In sep p -> first (split sep (p ++ sep :: rest)) = p.
Proof.
  unfold first. induction p as [ | c p IH]; intros Hn.
  - cbn [app split]. rewrite Z.eqb_refl. reflexivity.
  - cbn [app split]. destruct (Z.eqb_spec c sep) as [-> | Hc].
    + exfalso. apply Hn. left. reflexivity.
    + assert (Hp : ~ In sep p) by (intros H; apply Hn; right; exact H).
      specialize (IH Hp).
      destruct (split sep (p ++ sep :: rest)) as [ | q qs]; cbn [hd] in *; congruence.
Qed.

(** The outcome of a pass depends on the language tag through [langCode]
    only. *)
Lemma pass_by_langCode (el el' : element) (text : jsstring) :
  langCode toLowerCase (or_en (attr_lang el))
  = langCode toLowerCase (or_en (attr_lang el')) ->
  dir_after toLowerCase (mkDocument (Some el) text)
  = dir_after toLowerCase (mkDocument (Some el') text)
  /\ reads_body toLowerCase (mkDocument (Some el) text)
     = reads_body toLowerCase (mkDocument (Some el') text).
Proof.
  intros Hcode. unfold dir_after, reads_body.
  destruct (includes rtlLanguages (langCode toLowerCase (or_en (attr_lang el)))) eqn:E.
  - apply includes_In in E.
    rewrite (pass_rtl_lang toLowerCase (mkDocument (Some el) text) el eq_refl E).
    rewrite Hcode in E.
    rewrite (pass_rtl_lang toLowerCase (mkDocument (Some el') text) el' eq_refl E).
    split; reflexivity.
  - assert (Hn : ~ In (langCode toLowerCase (or_en (attr_lang el))) rtlLanguages)
      by (intros H; apply includes_In in H; congruence).
    rewrite (pass_content toLowerCase (mkDocument (Some el) text) el eq_refl Hn).
    rewrite Hcode in Hn.
    rewrite (pass_content toLowerCase (mkDocument (Some el') text) el' eq_refl Hn).
    split; reflexivity.
Qed.

(** X9: only the part of the language tag before its first hyphen counts:
    a tag [p-rest], with [p] not empty and free of hyphens, is resolved as
    the tag [p] is, whatever the script, region or variant subtags are and
    whatever the [dir] attribute was before. *)
Theorem subtags_ignored (p rest text : jsstring) (dir0 dir1 : option jsstring) :
  p <> [] -> ~ In 45 p ->
  langCode toLowerCase (p ++ 45 :: rest) = toLowerCase p
  /\ dir_after toLowerCase (mkDocument (Some (mkElement (Some (p ++ 45 :: rest)) dir0)) text)
     = dir_after toLowerCase (mkDocument (Some (mkElement (Some p) dir1)) text)
  /\ reads_body toLowerCase (mkDocument (Some (mkElement (Some (p ++ 45 :: rest)) dir0)) text)
     = reads_body toLowerCase (mkDocument (Some (mkElement (Some p) dir1)) text).
Proof.
  intros Hp Hn.
  assert (H1 : langCode toLowerCase (p ++ 45 :: rest) = toLowerCase p)
    by (unfold langCode; rewrite first_split_prefix by exact Hn; reflexivity).
  assert (H2 : langCode toLowerCase p = toLowerCase p)
    by (unfold langCode; rewrite first_split_nosep by exact Hn; reflexivity).
  split; [exact H1 | ].
  apply pass_by_langCode. cbn [attr_lang].
  destruct p as [ | c p]; [contradiction | ]. cbn [app or_en].
  change (c :: p ++ 45 :: rest) with ((c :: p) ++ 45 :: rest).
  rewrite H1, H2. reflexivity.
Qed.

(** X10: a pass that returns is stable: it leaves the body text and the
    [lang] attribute as they were, sets [dir] to [rtl] or [ltr], and a
    second pass on its result performs the same operations and changes
    nothing. *)
Theorem pass_idempotent (d d1 : document) (ops : list dom_op) :
  pass toLowerCase d = Normal (tt, (d1, ops)) ->
  pass toLowerCase d1 = Normal (tt, (d1, ops))
  /\ body_innerText d1 = body_innerText d
  /\ exists el el1,
      htmlElement d = Some el /\ htmlElement d1 = Some el1
      /\ attr_lang el1 = attr_lang el
      /\ (attr_dir el1 = Some (js "rtl"%string) \/ attr_dir el1 = Some (js "ltr"%string)).
Proof.
  intros Hpass.
  destruct (htmlElement d) as [el | ] eqn:Hel.
  2:{ unfold pass, setPageDirection, bind, getAttribute_lang in Hpass.
      cbn [fst snd] in Hpass. rewrite Hel in Hpass. discriminate Hpass. }
  destruct (includes rtlLanguages (langCode toLowerCase (or_en (attr_lang el)))) eqn:E.
  - apply includes_In in E.
    rewrite (pass_rtl_lang toLowerCase d el Hel E) in Hpass.
    injection Hpass as <- <-.
    split; [ | split; [reflexivity | ]].
    + apply (pass_rtl_lang toLowerCase
               (mkDocument (Some (mkElement (attr_lang el) (Some (js "rtl"%string))))
                           (body_innerText d))
               (mkElement (attr_lang el) (Some (js "rtl"%string))) eq_refl E).
    + exists el, (mkElement (attr_lang el) (Some (js "rtl"%string))).
      repeat split. left. reflexivity.
  - assert (Hn : ~ In (langCode toLowerCase (or_en (attr_lang el))) rtlLanguages)
      by (intros H; apply includes_In in H; congruence).
    rewrite (pass_content toLowerCase d el Hel Hn) in Hpass. cbv zeta in Hpass.
    injection Hpass as <- <-.
    split; [ | split; [reflexivity | ]].
    + apply (pass_content toLowerCase
               (mkDocument (Some (mkElement (attr_lang el) _)) (body_innerText d))
               (mkElement (attr_lang el) _) eq_refl Hn).
    + eexists el, _. repeat split.
      cbn [attr_dir]. destruct (hasRTLCharacters (body_innerText d)); [left | right]; reflexivity.
Qed.

(** X11: a body text with no code unit in U+0590..U+08FF is never found
    RTL by its content, however long it is; with a language tag that is not
    an RTL code the direction is then [ltr]. Text written in other RTL
    blocks (the Arabic and Hebrew presentation forms, say) is of this
    kind. *)
Theorem no_rtl_code_unit_is_ltr (d : document) (el : element) :
  htmlElement d = Some el ->
  ~ In (langCode toLowerCase (or_en (attr_lang el))) rtlLanguages ->
  rtlCount (body_innerText d) = 0%nat ->
  hasRTLCharacters (body_innerText d) = false
  /\ dir_after toLowerCase d = Some (js "ltr"%string).
Proof.
  intros Hel Hn Hc.
  assert (H : hasRTLCharacters (body_innerText d) = false).
  { unfold hasRTLCharacters, num_gt. rewrite matches_length, Hc.
    apply Exact.not_lt_zero. unfold lit_0_1. rewrite Exact.signbit_mul_pos.
    apply Exact.signbit_num_of_Z. lia. }
  split; [exact H | ].
  rewrite (dir_after_content toLowerCase d el Hel Hn), H. reflexivity.
Qed.

End DirectionMore.

(** ** The debounced re-evaluation *)

Section DebounceFacts.

Import Direction Debounce.

Variable toLowerCase : jsstring -> jsstring.

Lemma pass_cases (d : document) (el : element) :
  htmlElement d = Some el ->
  exists v ops,
    pass toLowerCase d
    = Normal (tt, (mkDocument (Some (mkElement (attr_lang el) (Some v))) (body_innerText d),
                   ops)).
Proof.
  intros Hel.
  destruct (includes rtlLanguages (langCode toLowerCase (or_en (attr_lang el)))) eqn:E.
  - apply includes_In in E. rewrite (pass_rtl_lang toLowerCase d el Hel E).
    eexists _, _. reflexivity.
  - assert (Hn : ~ In (langCode toLowerCase (or_en (attr_lang el))) rtlLanguages)
      by (intros H; apply includes_In in H; congruence).
    rewrite (pass_content toLowerCase d el Hel Hn). eexists _, _. reflexivity.
Qed.

Lemma install_root (d : document) (h0 : host) :
  install toLowerCase d = Normal h0 ->
  pending h0 = [] /\ ran h0 = [] /\ htmlElement (page h0) <> None.
Proof.
  unfold install. intros H.
  destruct (htmlElement d) as [el | ] eqn:Hel.
  - destruct (pass_cases d el Hel) as (v & ops & Hp). rewrite Hp in H.
    injection H as <-. cbn. repeat split. discriminate.
  - unfold pass, setPageDirection, bind, getAttribute_lang in H. cbn [fst snd] in H.
    rewrite Hel in H. discriminate H.
Qed.

Lemma observerCallback_spec (h : host) :
  one_timer h ->
  observerCallback h
  = mkHost (page h) (clock h) (next_id h + 1) [(next_id h, clock h + 100)]
           (Some (next_id h)) (ran h).
Proof.
  intros [Hp | (id & due & Hp & Hc)]; unfold observerCallback, clearTimeout, setTimeout.
  - destruct (checkTimeout h); cbn; rewrite Hp; reflexivity.
  - rewrite Hc. cbn. rewrite Hp. cbn. rewrite Z.eqb_refl. reflexivity.
Qed.

Lemma step_Mutate (h : host) (t : Z) (text : jsstring) :
  one_timer h -> clock h <= t ->
  step toLowerCase (Mutate t text) h
  = Some (mkHost (mkDocument (htmlElement (page h)) text) t (next_id h + 1)
                 [(next_id h, t + 100)] (Some (next_id h)) (ran h)).
Proof.
  intros Hone Ht. cbn [step]. apply Z.leb_le in Ht. rewrite Ht.
  rewrite observerCallback_spec; [reflexivity | ].
  destruct Hone as [Hp | (id & due & Hp & Hc)]; [left | right]; cbn.
  - exact Hp.
  - exists id, due. split; assumption.
Qed.

Lemma step_Fire (h h' : host) (t : Z) :
  one_timer h ->
  step toLowerCase (Fire t) h = Some h' ->
  exists id due,
    pending h = [(id, due)] /\ due <= t /\ clock h <= t
    /\ h' = timerCallback toLowerCase
              (mkHost (page h) t (next_id h) [] (checkTimeout h) (ran h)).
Proof.
  intros Hone H. cbn [step] in H.
  destruct (Z.leb_spec (clock h) t) as [Hc | Hc]; [ | discriminate H].
  destruct Hone as [Hp | (id & due & Hp & _)]; rewrite Hp in H; cbn [find] in H;
    [discriminate H | ].
  cbn [snd] in H. destruct (Z.leb_spec due t) as [Hd | Hd]; [ | discriminate H].
  cbn [filter fst] in H. rewrite Z.eqb_refl in H. cbn [negb] in H.
  injection H as <-. exists id, due. repeat split; assumption.
Qed.

Lemma timerCallback_root (h : host) :
  htmlElement (page h) <> None ->
  htmlElement (page (timerCallback toLowerCase h)) <> None
  /\ page_dir (timerCallback toLowerCase h) = dir_after toLowerCase (page h).
Proof.
  intros Hr. destruct (htmlElement (page h)) as [el | ] eqn:Hel; [ | contradiction].
  destruct (pass_cases (page h) el Hel) as (v & ops & Hp).
  unfold timerCallback, page_dir, dir_after. cbn [page]. rewrite Hp. cbn.
  split; [discriminate | reflexivity].
Qed.

Lemma step_keeps (ev : event) (h h' : host) :
  one_timer h -> htmlElement (page h) <> None ->
  step toLowerCase ev h = Some h' ->
  one_timer h' /\ htmlElement (page h') <> None
  /\ (length (ran h') + length (pending h')
      <= length (ran h) + length (pending h)
         + mutations [ev])%nat.
Proof.
  intros Hone Hr H. destruct ev as [t text | t].
  - destruct (Z.leb_spec (clock h) t) as [Hc | Hc];
      [ | cbn [step] in H; apply Z.leb_gt in Hc; rewrite Hc in H; discriminate H].
    rewrite (step_Mutate h t text Hone Hc) in H. injection H as <-. cbn.
    split; [right; eexists _, _; split; reflexivity | split; [exact Hr | lia]].
  - destruct (step_Fire h h' t Hone H) as (id & due & Hp & _ & _ & ->).
    destruct (timerCallback_root
                (mkHost (page h) t (next_id h) [] (checkTimeout h) (ran h)) Hr) as [Hr' _].
    split; [left; reflexivity | split; [exact Hr' | ]].
    rewrite Hp. cbn. lia.
Qed.

Lemma run_app (evs evs' : list event) (h : host) :
  run toLowerCase (evs ++ evs') h
  = match run toLowerCase evs h with
    | Some h' => run toLowerCase evs' h'
    | None => None
    end.
Proof.
  revert h. induction evs as [ | ev evs IH]; intros h; cbn [app run]; [reflexivity | ].
  destruct (step toLowerCase ev h); [apply IH | reflexivity].
Qed.

Lemma mutations_app (evs evs' : list event) :
  mutations (evs ++ evs') = (mutations evs + mutations evs')%nat.
Proof. unfold mutations. rewrite filter_app, length_app. reflexivity. Qed.

Lemma last_mutation_snoc (evs : list event) (ev : event) :
  last_mutation (evs ++ [ev])
  = match ev with Mutate t _ => Some t | Fire _ => last_mutation evs end.
Proof. unfold last_mutation. rewrite fold_left_app. reflexivity. Qed.

(** What holds of every host reached from the installation. *)
Lemma reach (d : document) (h0 h : host) (evs : list event) :
  install toLowerCase d = Normal h0 ->
  run toLowerCase evs h0 = Some h ->
  one_timer h /\ htmlElement (page h) <> None
  /\ (length (ran h) + length (pending h) <= mutations evs)%nat
  /\ forall id due, pending h = [(id, due)] -> last_mutation evs = Some (due - 100).
Proof.
  intros Hi. destruct (install_root d h0 Hi) as (Hp0 & Hr0 & Hroot0).
  revert h. induction evs as [ | ev evs IH] using rev_ind; intros h Hrun.
  - cbn [run] in Hrun. injection Hrun as <-.
    split; [left; exact Hp0 | split; [exact Hroot0 | split]].
    + rewrite Hp0, Hr0. cbn. lia.
    + intros id due H. rewrite Hp0 in H. discriminate H.
  - rewrite run_app in Hrun.
    destruct (run toLowerCase evs h0) as [hm | ] eqn:Hm; [ | discriminate Hrun].
    destruct (IH hm eq_refl) as (Hone & Hroot & Hcnt & Hlast).
    cbn [run] in Hrun.
    destruct (step toLowerCase ev hm) as [h1 | ] eqn:Hs; [ | discriminate Hrun].
    injection Hrun as <-.
    destruct (step_keeps ev hm h1 Hone Hroot Hs) as (Hone1 & Hroot1 & Hcnt1).
    split; [exact Hone1 | split; [exact Hroot1 | split]].
    + rewrite mutations_app. lia.
    + intros id due Hp1. rewrite last_mutation_snoc. destruct ev as [t text | t].
      * destruct (Z.leb_spec (clock hm) t) as [Hc | Hc];
          [ | cbn [step] in Hs; apply Z.leb_gt in Hc; rewrite Hc in Hs; discriminate Hs].
        rewrite (step_Mutate hm t text Hone Hc) in Hs. injection Hs as <-.
        cbn [pending] in Hp1. injection Hp1 as _ <-. f_equal. lia.
      * destruct (step_Fire hm h1 t Hone Hs) as (id' & due' & _ & _ & _ & ->).
        cbn in Hp1. discriminate Hp1.
Qed.

(** X12: however mutations and timers interleave after the installation,
    at most one timer is pending, and the passes run by timers together
    with the pending timer never outnumber the mutation callbacks. *)
Theorem single_pending_timer (d : document) (h0 h : host) (evs : list event) :
  install toLowerCase d = Normal h0 ->
  run toLowerCase evs h0 = Some h ->
  (length (pending h) <= 1)%nat
  /\ (length (ran h) + length (pending h) <= mutations evs)%nat.
Proof.
  intros Hi Hrun. destruct (reach d h0 h evs Hi Hrun) as (Hone & _ & Hcnt & _).
  split; [ | exact Hcnt].
  destruct Hone as [-> | (id & due & -> & _)]; cbn; lia.
Qed.

(** X13: a timer runs [setPageDirection] only when the last mutation is at
    least 100 ms old: while mutations keep arriving less than 100 ms apart
    the direction is not re-evaluated. The pass then empties the set of
    pending timers. *)
Theorem quiet_period (d : document) (h0 h h' : host) (evs : list event) (t : Z) :
  install toLowerCase d = Normal h0 ->
  run toLowerCase evs h0 = Some h ->
  step toLowerCase (Fire t) h = Some h' ->
  exists t',
    last_mutation evs = Some t' /\ t' + 100 <= t
    /\ ran h' = t :: ran h /\ pending h' = [].
Proof.
  intros Hi Hrun Hs.
  destruct (reach d h0 h evs Hi Hrun) as (Hone & _ & _ & Hlast).
  destruct (step_Fire h h' t Hone Hs) as (id & due & Hp & Hd & _ & ->).
  exists (due - 100). split; [apply (Hlast id due Hp) | ].
  split; [lia | split; reflexivity].
Qed.

Lemma last_cons_default {A : Type} (a d : A) (l : list A) :
  last (a :: l) d = last l a.
Proof.
  revert a d. induction l as [ | b l IH]; intros a d; [reflexivity | ].
  change (last (a :: b :: l) d) with (last (b :: l) d).
  rewrite (IH b d), (IH b a). reflexivity.
Qed.

Lemma run_burst (h : host) (t : Z) (x : jsstring) (ms : list (Z * jsstring)) :
  one_timer h ->
  chrono (clock h) ((t, x) :: ms) ->
  exists id n,
    run toLowerCase (burst ((t, x) :: ms)) h
    = Some (mkHost (mkDocument (htmlElement (page h)) (snd (last ms (t, x))))
                   (fst (last ms (t, x))) n
                   [(id, fst (last ms (t, x)) + 100)] (Some id) (ran h)).
Proof.
  revert h t x. induction ms as [ | [t1 x1] ms IH]; intros h t x Hone [Ht Hch].
  - cbn [burst map run fst snd]. rewrite (step_Mutate h t x Hone Ht).
    eexists _, _. reflexivity.
  - change (burst ((t, x) :: (t1, x1) :: ms))
      with (Mutate t x :: burst ((t1, x1) :: ms)).
    rewrite (run_app [Mutate t x] (burst ((t1, x1) :: ms)) h : run toLowerCase (Mutate t x :: burst ((t1, x1) :: ms)) h = _).
    cbn [run]. rewrite (step_Mutate h t x Hone Ht).
    destruct (IH (mkHost (mkDocument (htmlElement (page h)) x) t (next_id h + 1)
                         [(next_id h, t + 100)] (Some (next_id h)) (ran h)) t1 x1)
      as (id & n & Hrun); [ | exact Hch | ].
    + right. eexists _, _. split; reflexivity.
    + rewrite Hrun. cbn [page htmlElement ran].
      rewrite (last_cons_default (t1, x1) (t, x) ms).
      eexists _, _. reflexivity.
Qed.

(** X14: a burst of mutations, however many, leaves a single timer, due
    100 ms after the last of them, and runs no pass while it lasts; when
    the timer fires, one pass sets [dir] from the text the last mutation
    left, and no timer remains that could run another. *)
Theorem burst_coalesces (d : document) (h0 h : host) (evs : list event)
        (t : Z) (x : jsstring) (ms : list (Z * jsstring)) (tf : Z) :
  install toLowerCase d = Normal h0 ->
  run toLowerCase evs h0 = Some h ->
  chrono (clock h) ((t, x) :: ms) ->
  fst (last ms (t, x)) + 100 <= tf ->
  exists h1 h2 id,
    run toLowerCase (burst ((t, x) :: ms)) h = Some h1
    /\ ran h1 = ran h
    /\ pending h1 = [(id, fst (last ms (t, x)) + 100)]
    /\ step toLowerCase (Fire tf) h1 = Some h2
    /\ ran h2 = tf :: ran h
    /\ pending h2 = []
    /\ page_dir h2
       = dir_after toLowerCase (mkDocument (htmlElement (page h)) (snd (last ms (t, x))))
    /\ forall t2, step toLowerCase (Fire t2) h2 = None.
Proof.
  intros Hi Hrun Hch Htf.
  destruct (reach d h0 h evs Hi Hrun) as (Hone & Hroot & _ & _).
  destruct (run_burst h t x ms Hone Hch) as (id & n & Hb).
  set (tl := fst (last ms (t, x))) in *. set (xl := snd (last ms (t, x))) in *.
  set (h1 := mkHost (mkDocument (htmlElement (page h)) xl) tl n [(id, tl + 100)]
                    (Some id) (ran h)) in *.
  set (hq := mkHost (page h1) tf (next_id h1) [] (checkTimeout h1) (ran h1)).
  assert (Hs : step toLowerCase (Fire tf) h1 = Some (timerCallback toLowerCase hq)).
  { cbn [step]. subst h1. cbn [clock pending find snd].
    replace (tl <=? tf) with true by (symmetry; apply Z.leb_le; lia).
    replace (tl + 100 <=? tf) with true by (symmetry; apply Z.leb_le; lia).
    cbn [filter fst]. rewrite Z.eqb_refl. reflexivity. }
  destruct (timerCallback_root hq Hroot) as [_ Hdir].
  exists h1, (timerCallback toLowerCase hq), id.
  repeat split; try assumption; try reflexivity.
  intros t2. unfold step, timerCallback. subst hq. cbn [clock pending find].
  destruct (tf <=? t2); reflexivity.
Qed.

End DebounceFacts.

(** ** The claims at concrete inputs *)

Section Witnesses.

Import Direction Timeline.

(** Ten code units, one of them Hebrew (U+05D0): exactly one tenth, and no
  [lang] attribute. *)
Lemma content_direction_threshold_witness :
dir_after asciiLower
  (mkDocument (Some (mkElement None None))
              (0x05D0 :: js "abcdefghi"%string))
= Some (js "ltr"%string).
Proof.
refine (proj2 (proj2 (content_direction_threshold asciiLower
                        (mkDocument (Some (mkElement None None))
                                    (0x05D0 :: js "abcdefghi"%string))
                        (mkElement None None) eq_refl _ _)) _).
- vm_compute. intros H.
  repeat (destruct H as [H | H]; [discriminate H | ]). exact H.
- reflexivity.
- vm_compute. discriminate.
Defined.

(** The tag [AR-eg] on a page of Latin text. *)
Lemma rtl_language_sets_rtl_witness :
dir_after asciiLower
  (mkDocument (Some (mkElement (Some (js "AR-eg"%string)) None)) (js "hello"%string))
= Some (js "rtl"%string)
/\ reads_body asciiLower
     (mkDocument (Some (mkElement (Some (js "AR-eg"%string)) None)) (js "hello"%string))
   = false.
Proof.
destruct (rtl_language_sets_rtl asciiLower
            (mkDocument (Some (mkElement (Some (js "AR-eg"%string)) None))
                        (js "hello"%string))
            (mkElement (Some (js "AR-eg"%string)) None) eq_refl) as (H1 & H2 & _).
- vm_compute. left. reflexivity.
- split; [exact H1 | exact H2].
Defined.

(** The tag [en] on a page without text. *)
Lemma empty_body_is_ltr_witness :
dir_after asciiLower (mkDocument (Some (mkElement (Some (js "en"%string)) None)) [])
= Some (js "ltr"%string).
Proof.
apply (empty_body_is_ltr asciiLower
         (mkDocument (Some (mkElement (Some (js "en"%string)) None)) [])
         (mkElement (Some (js "en"%string)) None) eq_refl).
- vm_compute. intros H.
  repeat (destruct H as [H | H]; [discriminate H | ]). exact H.
- reflexivity.
Defined.

(** [scrollWidth = 1000], [clientWidth = 500], [deltaY = 100] in pixel mode. *)
Lemma wheel_offset_witness :
onWheel (mkTimeline 1000 500) (mkWheel (num_of_Z 0) (num_of_Z 100) 0)
= [PreventDefault;
   ScrollBy (num_mul (num_mul (num_of_Z 100) (num_of_Z 1)) lit_1_2) Auto].
Proof.
apply (wheel_offset (mkTimeline 1000 500) (mkWheel (num_of_Z 0) (num_of_Z 100) 0)).
- reflexivity.
- vm_compute. discriminate.
Defined.

(** A container as wide as its content: ArrowRight still scrolls. *)
Lemma keydown_ignores_overflow_witness :
(exists left,
    onKeydown (mkTimeline 500 500) (js "ArrowRight"%string)
    = [PreventDefault; ScrollBy left Smooth])
/\ forall e : wheel_event, onWheel (mkTimeline 500 500) e = [].
Proof.
apply (keydown_ignores_overflow (mkTimeline 500 500) (js "ArrowRight"%string)).
- vm_compute. discriminate.
- left. reflexivity.
Defined.

(** Two cards on a phone: the first one is opened by a click, then the
  second, then the user taps outside. *)
Lemma at_most_one_card_open_witness :
let phone := mkWindow true 390 in
let cs := run [(phone, ClickCard 0 false)]
              [[js "milestone-card"%string]; [js "milestone-card"%string]] in
(openCount cs <= 1)%nat
/\ isOpen (nth 0 (dispatch phone (ClickCard 1 false) cs) []) = false
/\ isOpen (nth 1 (dispatch phone (ClickCard 1 false) cs) []) = true
/\ allClosed (dispatch phone ClickOutside (dispatch phone (ClickCard 1 false) cs)).
Proof.
cbv zeta.
destruct (at_most_one_card_open
            [[js "milestone-card"%string]; [js "milestone-card"%string]]
            [(mkWindow true 390, ClickCard 0 false)]) as [H1 H2].
- repeat constructor.
- split; [exact H1 | ].
  destruct (H2 (mkWindow true 390) (mkWindow true 390) 0%nat 1%nat (ClickCard 1 false))
    as (Ha & Hb & _ & Hc).
  + reflexivity.
  + reflexivity.
  + vm_compute. lia.
  + discriminate.
  + reflexivity.
  + left. reflexivity.
  + split; [exact Ha | split; [exact Hb | exact Hc]].
Defined.

(** A desktop window, 1280px wide, with one card open: a click on the
  card, Enter on it and a click outside leave it open. *)
Lemma inert_on_wide_non_touch_witness :
let desktop := mkWindow false 1280 in
let cs := [[js "milestone-card"%string; open]; [js "milestone-card"%string]] in
dispatch desktop (ClickCard 1 false) cs = cs
/\ dispatch desktop (KeydownCard 1 (js "Enter"%string) false) cs = cs
/\ dispatch desktop ClickOutside cs = cs.
Proof.
cbv zeta.
destruct (inert_on_wide_non_touch (mkWindow false 1280)
            [[js "milestone-card"%string; open]; [js "milestone-card"%string]])
  as (H & _).
- reflexivity.
- reflexivity.
- split; [apply H | split; apply H].
Defined.

End Witnesses.

(** ** The further properties at concrete inputs *)

Section MoreWitnesses.

Import Direction Timeline Debounce.

(** Wheel up by 100 lines on an overflowing container. *)
Lemma wheel_keeps_direction_witness :
  signbit (num_of_Z (-1920)) = signbit (num_of_Z (-100))
  /\ signbit (num_of_Z (-1920)) <> None.
Proof.
  apply (wheel_keeps_direction (mkTimeline 1000 500)
           (mkWheel (num_of_Z 0) (num_of_Z (-100)) 1) (num_of_Z (-1920)) Auto).
  vm_compute. right. left. reflexivity.
Defined.

(** [deltaY = -125] in pixel mode: the request is -150. *)
Lemma wheel_offset_exact_witness :
  onWheel (mkTimeline 1000 500) (mkWheel (num_of_Z 3) (num_of_Z (-125)) 0)
  = [PreventDefault; ScrollBy (num_of_Z (-150)) Auto].
Proof.
  apply (wheel_offset_exact (mkTimeline 1000 500)
           (mkWheel (num_of_Z 3) (num_of_Z (-125)) 0) (-25)).
  - reflexivity.
  - discriminate.
  - reflexivity.
  - vm_compute. discriminate.
Defined.

(** [clientWidth = 1365 = 5 * 273]: the page step is 1092. *)
Lemma page_step_exact_witness :
  onKeydown (mkTimeline 4000 1365) (js "PageDown"%string)
  = [PreventDefault; ScrollBy (num_of_Z 1092) Smooth]
  /\ onKeydown (mkTimeline 4000 1365) (js "PageUp"%string)
     = [PreventDefault; ScrollBy (num_neg (num_of_Z 1092)) Smooth].
Proof.
  apply (page_step_exact (mkTimeline 4000 1365) 273).
  - reflexivity.
  - discriminate.
  - reflexivity.
Defined.

(** A card with other classes keeps them through a session on a phone. *)
Lemma cards_frame_witness :
  let phone := mkWindow true 390 in
  let cs := [[js "milestone-card"%string; js "featured"%string];
             [js "milestone-card"%string]] in
  let tr := [(phone, ClickCard 0 false); (phone, ClickCard 1 false);
             (phone, ClickOutside)] in
  contains (nth 0 (Timeline.run tr cs) []) (js "featured"%string)
  = contains (nth 0 cs []) (js "featured"%string).
Proof.
  cbv zeta.
  apply (cards_frame
           [(mkWindow true 390, ClickCard 0 false); (mkWindow true 390, ClickCard 1 false);
            (mkWindow true 390, ClickOutside)]
           [[js "milestone-card"%string; js "featured"%string];
            [js "milestone-card"%string]]).
  discriminate.
Defined.

(** Enter on a link inside a card, on a phone. *)
Lemma link_targets_never_toggle_witness :
  cardKeydown (mkWindow true 390) 0 (js "Enter"%string) true [[js "milestone-card"%string]]
  = ([[js "milestone-card"%string]], true).
Proof.
  apply (link_targets_never_toggle (mkWindow true 390) 0 (js "Enter"%string)
           [[js "milestone-card"%string]]).
  reflexivity.
Defined.

(** The open card of two is tapped on a phone. *)
Lemma toggle_open_card_closes_witness :
  allClosed (dispatch (mkWindow true 390) (ClickCard 0 false)
               [[js "milestone-card"%string; open]; [js "milestone-card"%string]]).
Proof.
  apply (toggle_open_card_closes (mkWindow true 390) 0 (ClickCard 0 false)
           [[js "milestone-card"%string; open]; [js "milestone-card"%string]]).
  - reflexivity.
  - left. reflexivity.
  - vm_compute. lia.
  - reflexivity.
Defined.

(** [he-IL] and [he]. *)
Lemma subtags_ignored_witness :
  langCode asciiLower (js "he-IL"%string) = asciiLower (js "he"%string)
  /\ dir_after asciiLower
       (mkDocument (Some (mkElement (Some (js "he-IL"%string)) None)) (js "shalom"%string))
     = dir_after asciiLower
         (mkDocument (Some (mkElement (Some (js "he"%string)) None)) (js "shalom"%string)).
Proof.
  destruct (subtags_ignored asciiLower (js "he"%string) (js "IL"%string)
              (js "shalom"%string) None None) as (H1 & H2 & _).
  - discriminate.
  - vm_compute. intros H. repeat (destruct H as [H | H]; [discriminate H | ]). exact H.
  - split; [exact H1 | exact H2].
Defined.

(** A page in English. *)
Lemma pass_idempotent_witness :
  pass asciiLower
    (mkDocument (Some (mkElement (Some (js "en"%string)) (Some (js "ltr"%string))))
                (js "hello"%string))
  = Normal (tt, (mkDocument (Some (mkElement (Some (js "en"%string))
                                              (Some (js "ltr"%string))))
                            (js "hello"%string),
                 [GetLang; GetInnerText; SetDir (js "ltr"%string)])).
Proof.
  apply (pass_idempotent asciiLower
           (mkDocument (Some (mkElement (Some (js "en"%string)) None)) (js "hello"%string))).
  vm_compute. reflexivity.
Defined.

(** Text in the Arabic presentation forms (U+FE8D, U+FEDF, U+FEE1). *)
Lemma no_rtl_code_unit_is_ltr_witness :
  dir_after asciiLower
    (mkDocument (Some (mkElement None None)) [0xFE8D; 0xFEDF; 0xFEE1])
  = Some (js "ltr"%string).
Proof.
  apply (no_rtl_code_unit_is_ltr asciiLower
           (mkDocument (Some (mkElement None None)) [0xFE8D; 0xFEDF; 0xFEE1])
           (mkElement None None) eq_refl).
  - vm_compute. intros H. repeat (destruct H as [H | H]; [discriminate H | ]). exact H.
  - reflexivity.
Defined.

(** Two mutations 40 ms apart, the timer, one more mutation. *)
Lemma single_pending_timer_witness :
  let root := Some (mkElement None (Some (js "ltr"%string))) in
  let h := mkHost (mkDocument root (js "c"%string)) 160 4 [(3, 260)] (Some 3) [150] in
  (length (pending h) <= 1)%nat
  /\ (length (ran h) + length (pending h) <= 3)%nat.
Proof.
  cbv zeta.
  apply (single_pending_timer asciiLower
           (mkDocument (Some (mkElement None None)) (js "hello"%string))
           (mkHost (mkDocument (Some (mkElement None (Some (js "ltr"%string))))
                               (js "hello"%string)) 0 1 [] None [])
           (mkHost (mkDocument (Some (mkElement None (Some (js "ltr"%string))))
                               (js "c"%string)) 160 4 [(3, 260)] (Some 3) [150])
           [Mutate 10 (js "a"%string); Mutate 50 (js "b"%string); Fire 150;
            Mutate 160 (js "c"%string)]).
  - vm_compute. reflexivity.
  - vm_compute. reflexivity.
Defined.

(** The timer set by a mutation at 50 ms runs at 150 ms. *)
Lemma quiet_period_witness :
  exists t',
    last_mutation [Mutate 10 (js "a"%string); Mutate 50 (js "b"%string)] = Some t'
    /\ t' + 100 <= 150.
Proof.
  destruct (quiet_period asciiLower
              (mkDocument (Some (mkElement None None)) (js "hello"%string))
              (mkHost (mkDocument (Some (mkElement None (Some (js "ltr"%string))))
                                  (js "hello"%string)) 0 1 [] None [])
              (mkHost (mkDocument (Some (mkElement None (Some (js "ltr"%string))))
                                  (js "b"%string)) 50 3 [(2, 150)] (Some 2) [])
              (mkHost (mkDocument (Some (mkElement None (Some (js "ltr"%string))))
                                  (js "b"%string)) 150 3 [] (Some 2) [150])
              [Mutate 10 (js "a"%string); Mutate 50 (js "b"%string)] 150)
    as (t' & H1 & H2 & _).
  - vm_compute. reflexivity.
  - vm_compute. reflexivity.
  - vm_compute. reflexivity.
  - exists t'. split; [exact H1 | exact H2].
Defined.

(** A translation overlay rewrites the body three times within 60 ms; the
    last text is Hebrew. *)
Lemma burst_coalesces_witness :
  let h0 := mkHost (mkDocument (Some (mkElement None (Some (js "ltr"%string))))
                               (js "hello"%string)) 0 1 [] None [] in
  exists h1 h2 id,
    Debounce.run asciiLower
      (burst [(1000, js "hel"%string); (1030, js "h"%string); (1060, [0x05E9; 0x05DC])])
      h0 = Some h1
    /\ pending h1 = [(id, 1160)]
    /\ Debounce.step asciiLower (Fire 1160) h1 = Some h2
    /\ ran h2 = [1160]
    /\ page_dir h2 = Some (js "rtl"%string).
Proof.
  cbv zeta.
  destruct (burst_coalesces asciiLower
              (mkDocument (Some (mkElement None None)) (js "hello"%string))
              (mkHost (mkDocument (Some (mkElement None (Some (js "ltr"%string))))
                                  (js "hello"%string)) 0 1 [] None [])
              (mkHost (mkDocument (Some (mkElement None (Some (js "ltr"%string))))
                                  (js "hello"%string)) 0 1 [] None [])
              [] 1000 (js "hel"%string)
              [(1030, js "h"%string); (1060, [0x05E9; 0x05DC])] 1160)
    as (h1 & h2 & id & Hb & _ & Hp & Hs & Hr & _ & Hd & _).
  - vm_compute. reflexivity.
  - reflexivity.
  - vm_compute. repeat split; discriminate.
  - vm_compute. discriminate.
  - exists h1, h2, id.
    split; [exact Hb | split; [exact Hp | split; [exact Hs | split; [exact Hr | ]]]].
    rewrite Hd. vm_compute. reflexivity.
Defined.

End MoreWitnesses.
